(** * Focus controller of AFMforLLM: a shallow embedding and its properties

    The development follows the Python sources [token_counter.py],
    [utils.py], [compression.py], [embedding.py] and [focus.py].

    Modelling conventions.
    - A Python [str] is a sequence of Unicode code points: [str := list N].
    - A Python [int] is a [Z].
    - A Python [float] is idealised as a real number ([R]); the comparisons
      of scores against thresholds are the decidable comparisons of [R].
    - Objects that the code mutates in place ([MemoryItem]s held in
      [FocusManager._items]) live in a store that is threaded through the
      operations; a list of references into the store is a list of
      positions.
    - Python truthiness of an optional string or list is written out as a
      pattern match: [None], the empty string and the empty list are
      falsy. *)

From Stdlib Require Import List ZArith NArith Bool Lia.
From Stdlib Require String Ascii.
From Stdlib Require Import Reals Lra.
From Stdlib Require Import Sorted Permutation.
Import ListNotations.

Set Implicit Arguments.

(* ================================================================== *)
(** * Strings *)
(* ================================================================== *)

Module PyStr.

Import String.

Definition str := list N.

(** A literal: the code points of an ASCII text. *)
Definition lit (s : String.string) : str :=
  List.map Ascii.N_of_ascii (String.list_ascii_of_string s).
Arguments lit s%_string.

Definition str_eqb (a b : str) : bool :=
  if list_eq_dec N.eq_dec a b then true else false.

(** [bool(s)] for a string: false exactly for the empty string. *)
Definition truthy (s : str) : bool :=
  match s with [] => false | _ :: _ => true end.

(** Code points that [str.split()] and [str.strip()] treat as white space. *)
Definition is_space (c : N) : bool :=
  ((9 <=? c) && (c <=? 13) || (28 <=? c) && (c <=? 32)
   || (c =? 133) || (c =? 160) || (c =? 5760)
   || (8192 <=? c) && (c <=? 8202)
   || (c =? 8232) || (c =? 8233) || (c =? 8239) || (c =? 8287)
   || (c =? 12288))%N.

Definition space : N := 32%N.
Definition newline : N := 10%N.
(** U+2022, the bullet of the stub prefix. *)
Definition bullet : N := 8226%N.

(** The word in progress is kept reversed in [cur]. *)
Definition flush (cur : str) : list str :=
  match cur with [] => [] | _ :: _ => [rev cur] end.

Fixpoint split_from (cur : str) (s : str) : list str :=
  match s with
  | [] => flush cur
  | c :: s' =>
      if is_space c then flush cur ++ split_from [] s'
      else split_from (c :: cur) s'
  end.

(** [s.split()]: maximal runs of non-space code points. *)
Definition split (s : str) : list str := split_from [] s.

Fixpoint drop_while (p : N -> bool) (s : str) : str :=
  match s with
  | [] => []
  | c :: s' => if p c then drop_while p s' else s
  end.

Definition strip_chars (p : N -> bool) (s : str) : str :=
  rev (drop_while p (rev (drop_while p s))).

(** [s.strip()] *)
Definition strip (s : str) : str := strip_chars is_space s.

(** [sep.join(ws)] *)
Fixpoint join (sep : str) (ws : list str) : str :=
  match ws with
  | [] => []
  | [w] => w
  | w :: ws' => w ++ sep ++ join sep ws'
  end.

(** [s.split("\n", 1)[0]]: the text before the first line feed. *)
Fixpoint first_line (s : str) : str :=
  match s with
  | [] => []
  | c :: s' => if (c =? newline)%N then [] else c :: first_line s'
  end.

(** Decimal digits of a natural number, most significant first; [fuel]
    bounds the number of digits. *)
Fixpoint digits_fuel (fuel : nat) (n : N) (acc : str) : str :=
  match fuel with
  | 0%nat => acc
  | S fuel' =>
      let acc' := (48 + n mod 10)%N :: acc in
      if (n / 10 =? 0)%N then acc' else digits_fuel fuel' (n / 10)%N acc'
  end.

Definition str_of_N (n : N) : str :=
  digits_fuel (S (N.to_nat (N.log2 n))) n [].

(** [str(z)] for an [int]. *)
Definition str_of_Z (z : Z) : str :=
  match z with
  | Z0 => str_of_N 0
  | Zpos p => str_of_N (Npos p)
  | Zneg p => 45%N :: str_of_N (Npos p)
  end.

(** The number that a string of decimal digits denotes. *)
Definition digits_value (s : str) : N :=
  fold_left (fun v c => (10 * v + (c - 48))%N) s 0%N.

End PyStr.

Import PyStr.
Import String.StringSyntax.

(* ================================================================== *)
(** * token_counter.py *)
(* ================================================================== *)

(** [_enc] is the optional tiktoken encoding: a function from a text to
    its token ids, which may raise ([None]). *)
Record TokenCounter : Type := mkTokenCounter {
  model_name : str;
  _enc : option (str -> option (list Z))
}.

Definition fallback_count (text : str) : Z :=
  Z.max 1 (Z.of_nat (length (split text))).

Definition count (tc : TokenCounter) (text : str) : Z :=
  if negb (truthy text) then 0
  else
    match _enc tc with
    | Some enc =>
        match enc text with
        | Some toks => Z.of_nat (length toks)
        | None => fallback_count text
        end
    | None => fallback_count text
    end.

(** The counter obtained when tiktoken is not importable. *)
Definition whitespace_counter : TokenCounter :=
  mkTokenCounter (lit "gpt-4o-mini") None.

(* ================================================================== *)
(** * utils.py *)
(* ================================================================== *)

(** The loop of [truncate_to_tokens]; [out] is kept reversed. *)
Fixpoint truncate_loop (tc : TokenCounter) (target_tokens : Z)
         (toks : list str) (out : list str) (used : Z) : list str :=
  match toks with
  | [] => rev out
  | w :: toks' =>
      let need := count tc w in
      if (used + need >? target_tokens)%Z then rev out
      else truncate_loop tc target_tokens toks' (w :: out) (used + need)%Z
  end.

Definition truncate_to_tokens (text : str) (target_tokens : Z)
           (counter : TokenCounter) : str :=
  let toks := split text in
  join [space] (truncate_loop counter target_tokens toks [] 0%Z).

(** [cosine(a, b)]: the dot product over [zip(a, b)], summed from 0. *)
Definition cosine (a b : list R) : R :=
  fold_left Rplus (map (fun xy => (fst xy * snd xy)%R) (combine a b)) 0%R.

(** [sum(x * x for x in v)], summed from 0 *)
Definition sum_squares (v : list R) : R :=
  fold_left Rplus (map (fun x => (x * x)%R) v) 0%R.

(** [l2_normalize_inplace(v)]: the list after the in-place division.
    [math.sqrt(...) or 1.0] replaces a zero norm by 1. *)
Definition l2_normalize_inplace (v : list R) : list R :=
  let s := if Req_dec_T (sqrt (sum_squares v)) 0 then 1%R
           else sqrt (sum_squares v) in
  map (fun x => (x / s)%R) v.

(** The sum of the costs of the words of a list, word by word. *)
Definition words_cost (counter : TokenCounter) (ws : list str) : Z :=
  fold_right (fun w acc => (count counter w + acc)%Z) 0%Z ws.

(** The characters stripped from both ends of a token by
    [simple_tokenize]:  . , ; : ! ? ( ) [ ] { } double-quote ' ` - _ /  *)
Definition punct : list N :=
  [46; 44; 59; 58; 33; 63; 40; 41; 91; 93; 123; 125; 34; 39; 96; 41; 46;
   45; 95; 47]%N.

Definition is_punct (c : N) : bool := existsb (N.eqb c) punct.

Section Tokenize.
(** [str.lower()] follows the Unicode case tables of the interpreter;
    it is taken as given. *)
Variable py_lower : str -> str.

Definition simple_tokenize (text : str) : list str :=
  let toks := map (strip_chars is_punct) (split (py_lower text)) in
  filter truthy toks.
End Tokenize.

(** Sentence terminators of [split_sentences]:  . ! ? and line feed. *)
Definition is_terminator (ch : N) : bool :=
  ((ch =? 46) || (ch =? 33) || (ch =? 63) || (ch =? 10))%N.

(** The loop of [split_sentences]; [buff] and [parts] are kept reversed. *)
Fixpoint split_sentences_loop (text : str) (buff : str) (parts : list str)
  : list str :=
  match text with
  | [] =>
      match buff with
      | [] => rev parts
      | _ :: _ =>
          let s := strip (rev buff) in
          if truthy s then rev (s :: parts) else rev parts
      end
  | ch :: text' =>
      let buff1 := ch :: buff in
      if is_terminator ch then
        let s := strip (rev buff1) in
        split_sentences_loop text' []
          (if truthy s then s :: parts else parts)
      else split_sentences_loop text' buff1 parts
  end.

Definition split_sentences (text : str) : list str :=
  split_sentences_loop text [] [].

(* ================================================================== *)
(** * compression.py *)
(* ================================================================== *)

(** The [Compressor] interface: [compress(text, target_tokens, hint)]. *)
Record Compressor : Type := mkCompressor {
  compress : str -> Z -> option str -> str
}.

(** Stable insertion sort; [before y x] says that [y] must come strictly
    before [x].  It is what [sorted]/[list.sort] compute for a total
    preorder given by a key. *)
Section StableSort.
Variable A : Type.
Variable before : A -> A -> bool.

Fixpoint insert_sorted (x : A) (l : list A) : list A :=
  match l with
  | [] => [x]
  | y :: l' => if before y x then y :: insert_sorted x l' else x :: l
  end.

Definition stable_sort (l : list A) : list A :=
  fold_right insert_sorted [] l.
End StableSort.

Definition Rltb (a b : R) : bool := if Rlt_dec a b then true else false.
Definition Rgeb (a b : R) : bool := if Rge_dec a b then true else false.

(** [len(set(l))] and [len(set(a) & set(b))] *)
Definition distinct (l : list str) : list str := nodup (list_eq_dec N.eq_dec) l.
Definition overlap_size (a b : list str) : Z :=
  Z.of_nat (length (filter (fun t => existsb (str_eqb t) b) (distinct a))).

Section Heuristic.
Variable py_lower : str -> str.
Variable counter : TokenCounter.

(** The score of sentence number [idx]. *)
Definition sentence_score (hint_toks : list str) (idx : Z) (s : str) : R :=
  let toks := simple_tokenize py_lower s in
  let overlap := overlap_size toks hint_toks in
  let len_penalty :=
    Rpower (IZR (Z.max 1 (Z.of_nat (length (distinct toks))))) 0.15 in
  let pos_bias := (1 / (1 + IZR idx * 0.05))%R in
  (IZR (1 + overlap) * pos_bias / len_penalty)%R.

Fixpoint score_sentences (hint_toks : list str) (idx : Z)
         (sentences : list str) : list (R * str) :=
  match sentences with
  | [] => []
  | s :: rest =>
      (sentence_score hint_toks idx s, s)
        :: score_sentences hint_toks (idx + 1) rest
  end.

(** The greedy selection loop, with its [continue] and [break]. *)
Fixpoint select_loop (target_tokens : Z) (scored : list (R * str))
         (out : list str) (used : Z) : list str :=
  match scored with
  | [] => rev out
  | (_, s) :: rest =>
      let need := count counter s in
      if (used + need >? target_tokens)%Z
      then select_loop target_tokens rest out used
      else
        let used1 := (used + need)%Z in
        if (used1 >=? target_tokens)%Z then rev (s :: out)
        else select_loop target_tokens rest (s :: out) used1
  end.

Definition heuristic_compress (text : str) (target_tokens : Z)
           (hint : option str) : str :=
  if (count counter text <=? target_tokens)%Z then text
  else
    let sentences := split_sentences text in
    match sentences with
    | [] => truncate_to_tokens text target_tokens counter
    | first :: _ =>
        let hint_text :=
          match hint with
          | Some h => if truthy h then h else []
          | None => []
          end in
        let hint_toks := distinct (simple_tokenize py_lower hint_text) in
        let scored := score_sentences hint_toks 0 sentences in
        let scored :=
          stable_sort (fun y x => Rltb (fst x) (fst y)) scored in
        match select_loop target_tokens scored [] 0 with
        | [] => truncate_to_tokens first target_tokens counter
        | out => join [space] out
        end
    end.

Definition HeuristicCompressor : Compressor :=
  mkCompressor heuristic_compress.
End Heuristic.

(* ================================================================== *)
(** * embedding.py *)
(* ================================================================== *)

(** The [Embedder] interface.  [HashingEmbedder] depends on the
    interpreter's salted string hash and is one of its instances. *)
Record Embedder : Type := mkEmbedder {
  dim : Z;
  encode : str -> list R
}.

(** [vec[idx] += d] on a Python list: a negative index counts from the
    end, an index out of range raises [IndexError] ([None]). *)
Fixpoint list_add_at (vec : list R) (i : nat) (d : R) : list R :=
  match vec, i with
  | [], _ => []
  | x :: rest, O => (x + d)%R :: rest
  | x :: rest, S j => x :: list_add_at rest j d
  end.

Definition py_list_add (vec : list R) (idx : Z) (d : R)
  : option (list R) :=
  let n := Z.of_nat (length vec) in
  let i := if (idx <? 0)%Z then (idx + n)%Z else idx in
  if ((0 <=? i) && (i <? n))%bool%Z
  then Some (list_add_at vec (Z.to_nat i) d)
  else None.

Section Hashing.
(** [hash] is the interpreter's built-in string hash (salted per
    process), [str.lower] its case mapping; both are taken as given. *)
Variable py_hash : str -> Z.
Variable py_lower : str -> str.

(** The loop of [HashingEmbedder.encode] from token number [i] on.
    [% self.dim] raises [ZeroDivisionError] when [dim] is 0. *)
Fixpoint hashing_loop (dim0 : Z) (i : Z) (toks : list str) (vec : list R)
  : option (list R) :=
  match toks with
  | [] => Some vec
  | tok :: rest =>
      if (dim0 =? 0)%Z then None
      else
        let bucket := (Z.lxor (py_hash tok) (i * 2654435761) mod dim0)%Z in
        let sign :=
          if (Z.land (py_hash (tok ++ lit "$")) 1 =? 0)%Z
          then 1%R else (-1)%R in
        match py_list_add vec bucket sign with
        | Some vec1 => hashing_loop dim0 (i + 1) rest vec1
        | None => None
        end
  end.

(** [HashingEmbedder(dim).encode(text)] *)
Definition hashing_encode (dim0 : Z) (text : str) : option (list R) :=
  let vec := repeat 0%R (Z.to_nat dim0) in
  match hashing_loop dim0 0 (simple_tokenize py_lower text) vec with
  | Some vec1 => Some (l2_normalize_inplace vec1)
  | None => None
  end.
End Hashing.

(* ================================================================== *)
(** * focus.py: data model *)
(* ================================================================== *)

Inductive Fidelity : Type := FULL | COMPRESSED | PLACEHOLDER.

Definition Fidelity_eqb (a b : Fidelity) : bool :=
  match a, b with
  | FULL, FULL | COMPRESSED, COMPRESSED | PLACEHOLDER, PLACEHOLDER => true
  | _, _ => false
  end.

Record MemoryItem : Type := mkMemoryItem {
  id : Z;
  role : str;
  content : str;
  created_at_s : R;
  token_len : Z;
  embedding : option (list R);
  compression_state : Fidelity;
  compressed_text : option str;
  last_score : R
}.

Definition set_token_len (v : Z) (it : MemoryItem) : MemoryItem :=
  mkMemoryItem (id it) (role it) (content it) (created_at_s it) v
    (embedding it) (compression_state it) (compressed_text it)
    (last_score it).

Definition set_embedding (v : option (list R)) (it : MemoryItem)
  : MemoryItem :=
  mkMemoryItem (id it) (role it) (content it) (created_at_s it)
    (token_len it) v (compression_state it) (compressed_text it)
    (last_score it).

Definition set_compression_state (v : Fidelity) (it : MemoryItem)
  : MemoryItem :=
  mkMemoryItem (id it) (role it) (content it) (created_at_s it)
    (token_len it) (embedding it) v (compressed_text it) (last_score it).

Definition set_compressed_text (v : option str) (it : MemoryItem)
  : MemoryItem :=
  mkMemoryItem (id it) (role it) (content it) (created_at_s it)
    (token_len it) (embedding it) (compression_state it) v (last_score it).

Definition set_last_score (v : R) (it : MemoryItem) : MemoryItem :=
  mkMemoryItem (id it) (role it) (content it) (created_at_s it)
    (token_len it) (embedding it) (compression_state it)
    (compressed_text it) v.

Record FocusConfig : Type := mkFocusConfig {
  high_threshold : R;
  mid_threshold : R;
  recency_half_life : Z;
  max_placeholder_tokens : Z;
  default_compress_ratio : R
}.

(** [FocusConfig()] *)
Definition default_config : FocusConfig :=
  mkFocusConfig 0.55 0.30 12 12 0.35.

Record FocusManager : Type := mkFocusManager {
  embedder : Embedder;
  tc : TokenCounter;
  compressor : Compressor;
  cfg : FocusConfig;
  _items : list MemoryItem;
  _next_id : Z
}.

(** [FocusManager.__init__]; [py_lower] is only used by the default
    compressor. *)
Definition init (py_lower : str -> str) (embedder0 : Embedder)
           (token_counter : TokenCounter) (compressor0 : option Compressor)
           (config : option FocusConfig) : FocusManager :=
  mkFocusManager embedder0 token_counter
    (match compressor0 with
     | Some c => c
     | None => HeuristicCompressor py_lower token_counter
     end)
    (match config with Some c => c | None => default_config end)
    [] 1.

(** [add_message]; [now] is the reading of [time.time()] taken by the
    default factory of [created_at_s]. *)
Definition add_message (m : FocusManager) (now : R) (role0 content0 : str)
  : FocusManager * MemoryItem :=
  let item := mkMemoryItem (_next_id m) role0 content0 now 0 None FULL None
                           0%R in
  let next := (_next_id m + 1)%Z in
  let item := set_token_len (count (tc m) content0) item in
  let item := set_embedding (Some (encode (embedder m) content0)) item in
  (mkFocusManager (embedder m) (tc m) (compressor m) (cfg m)
     (_items m ++ [item]) next, item).

(* ================================================================== *)
(** * focus.py: scoring and planning *)
(* ================================================================== *)

(** [it.embedding] after the lazy re-encoding of lines 86-87: a missing
    or empty embedding is falsy and is recomputed. *)
Definition ensure_embedding (e : Embedder) (it : MemoryItem) : list R :=
  match embedding it with
  | Some (x :: v) => x :: v
  | _ => encode e (content it)
  end.

Definition recency_weight (c : FocusConfig) (turns_ago : Z) : R :=
  let half := Z.max 1 (recency_half_life c) in
  Rpower 0.5 (IZR turns_ago / IZR half).

Definition blend (sim rw : R) : R := (Rmax 0 sim * (0.25 + 0.75 * rw))%R.

(** One iteration of the scoring loop for the item at position [idx]. *)
Definition score_item (m : FocusManager) (q_emb : list R) (n idx : Z)
           (it : MemoryItem) : R * MemoryItem :=
  let emb := ensure_embedding (embedder m) it in
  let it := set_embedding (Some emb) it in
  let sim := cosine q_emb emb in
  let turns_ago := ((n - 1) - idx)%Z in
  let score := blend sim (recency_weight (cfg m) turns_ago) in
  (score, set_last_score score it).

Fixpoint score_loop (m : FocusManager) (q_emb : list R) (n idx : Z)
         (items : list MemoryItem) : list (R * MemoryItem) :=
  match items with
  | [] => []
  | it :: rest =>
      score_item m q_emb n idx it :: score_loop m q_emb n (idx + 1) rest
  end.

(** [desired_map]: a dictionary from ids to fidelities. *)
Definition dict := Z -> option Fidelity.
Definition dict_empty : dict := fun _ => None.
Definition dict_set (d : dict) (k : Z) (v : Fidelity) : dict :=
  fun k' => if (k' =? k)%Z then Some v else d k'.

Definition plan_of (c : FocusConfig) (score : R) : Fidelity :=
  if Rgeb score (high_threshold c) then FULL
  else if Rgeb score (mid_threshold c) then COMPRESSED
  else PLACEHOLDER.

Definition plan_loop (c : FocusConfig) (scored : list (R * MemoryItem))
  : dict :=
  fold_left (fun d si => dict_set d (id (snd si)) (plan_of c (fst si)))
            scored dict_empty.

(* ================================================================== *)
(** * focus.py: budget packing *)
(* ================================================================== *)

(** The two variables that the closure [try_add] reads and writes. *)
Record Pack : Type := mkPack {
  messages : list (str * str);
  budget_left : Z
}.

Definition try_add (counter : TokenCounter) (role0 text : str) (p : Pack)
  : bool * Pack :=
  let need := count counter text in
  if (need <=? budget_left p)%Z
  then (true, mkPack (messages p ++ [(role0, text)])
                     (budget_left p - need)%Z)
  else (false, p).

(** The counters of lines 122-123. *)
Record Counters : Type := mkCounters {
  used_tokens : Z;
  raw_tokens : Z;
  compressed_tokens : Z;
  placeholder_tokens : Z;
  expanded_count : Z;
  compressed_count : Z;
  stub_count : Z
}.

Definition zero_counters : Counters := mkCounters 0 0 0 0 0 0 0.

Definition count_full (k : Z) (c : Counters) : Counters :=
  mkCounters (used_tokens c + k) (raw_tokens c + k) (compressed_tokens c)
    (placeholder_tokens c) (expanded_count c + 1) (compressed_count c)
    (stub_count c).

Definition count_compressed (k : Z) (c : Counters) : Counters :=
  mkCounters (used_tokens c + k) (raw_tokens c) (compressed_tokens c + k)
    (placeholder_tokens c) (expanded_count c) (compressed_count c + 1)
    (stub_count c).

Definition count_stub (k : Z) (c : Counters) : Counters :=
  mkCounters (used_tokens c + k) (raw_tokens c) (compressed_tokens c)
    (placeholder_tokens c + k) (expanded_count c) (compressed_count c)
    (stub_count c + 1).

(** [int(x)] for a float: truncation towards zero. *)
Definition py_int (x : R) : Z :=
  if Rle_dec 0 x then Int_part x else (- Int_part (- x))%Z.

Definition compress_item (m : FocusManager) (current_query : str)
           (it : MemoryItem) : str :=
  let target :=
    Z.max 1 (py_int (IZR (token_len it) * default_compress_ratio (cfg m))) in
  compress (compressor m) (content it) target (Some current_query).

Definition stub_prefix (it : MemoryItem) : str :=
  lit "[ref #" ++ str_of_Z (id it) ++ [space; bullet; space]
      ++ role it ++ lit "] ".

Definition _make_stub (m : FocusManager) (it : MemoryItem) : str :=
  let head := firstn 200 (first_line (strip (content it))) in
  let prefix := stub_prefix it in
  let room :=
    Z.max 0 (max_placeholder_tokens (cfg m) - count (tc m) prefix) in
  if (room <=? 0)%Z then strip prefix
  else
    let snippet := truncate_to_tokens head room (tc m) in
    prefix ++ snippet.

(** What one iteration of the packing loop did to one turn: the turn as
    the iteration found it, its planned fidelity, the fidelity written to
    [compression_state] (if any), the message appended (if any), whether
    the compressor was called, and the turn as the iteration left it. *)
Record Visit : Type := mkVisit {
  v_item : MemoryItem;
  v_desired : Fidelity;
  v_achieved : option Fidelity;
  v_emitted : option (str * str);
  v_compressed : bool;
  v_after : MemoryItem
}.

(** The state of one iteration: the closure variables, the counters, the
    item being visited and the record of the visit. *)
Record Step : Type := mkStep {
  s_pack : Pack;
  s_counters : Counters;
  s_item : MemoryItem;
  s_achieved : option Fidelity;
  s_emitted : option (str * str);
  s_compressed : bool
}.

(** The stub attempt (lines 153-159, 171-177 and 180-186). *)
Definition try_stub (m : FocusManager) (called : bool) (it : MemoryItem)
           (p : Pack) (c : Counters) : Step :=
  let stub := _make_stub m it in
  let (ok, p1) := try_add (tc m) (role it) stub p in
  if ok then
    let stok := count (tc m) stub in
    mkStep p1 (count_stub stok c) (set_compression_state PLACEHOLDER it)
           (Some PLACEHOLDER) (Some (role it, stub)) called
  else mkStep p1 c it None None called.

(** [it.compressed_text or compress_item(it)], with whether the
    compressor ran. *)
Definition compressed_or_compress (m : FocusManager) (current_query : str)
           (it : MemoryItem) : str * bool :=
  match compressed_text it with
  | Some (x :: s) => (x :: s, false)
  | _ => (compress_item m current_query it, true)
  end.

(** The compressed attempt and its fallback (lines 143-159 and
    162-177). *)
Definition try_compressed (m : FocusManager) (current_query : str)
           (it : MemoryItem) (p : Pack) (c : Counters) : Step :=
  let (comp, called) := compressed_or_compress m current_query it in
  let it := set_compressed_text (Some comp) it in
  let (ok, p1) := try_add (tc m) (role it) comp p in
  if ok then
    let ctok := count (tc m) comp in
    mkStep p1 (count_compressed ctok c)
           (set_compression_state COMPRESSED it)
           (Some COMPRESSED) (Some (role it, comp)) called
  else try_stub m called it p1 c.

(** The body of the packing loop (lines 133-186). *)
Definition pack_item (m : FocusManager) (current_query : str)
           (desired : Fidelity) (it : MemoryItem) (p : Pack) (c : Counters)
  : Step :=
  match desired with
  | FULL =>
      let (ok, p1) := try_add (tc m) (role it) (content it) p in
      if ok then
        mkStep p1 (count_full (token_len it) c)
               (set_compression_state FULL it)
               (Some FULL) (Some (role it, content it)) false
      else try_compressed m current_query it p1 c
  | COMPRESSED => try_compressed m current_query it p c
  | PLACEHOLDER => try_stub m false it p c
  end.

(** Overwrite position [i] of the store. *)
Fixpoint store_set (i : nat) (x : MemoryItem) (l : list MemoryItem)
  : list MemoryItem :=
  match l, i with
  | [], _ => []
  | _ :: t, O => x :: t
  | h :: t, S j => h :: store_set j x t
  end.

(** [sorted(self._items, key=lambda x: x.id)]: the objects of the store in
    ascending id order, each with its position in the store. *)
Definition sorted_by_id (items : list MemoryItem)
  : list (nat * MemoryItem) :=
  stable_sort (fun y x => (id (snd y) <? id (snd x))%Z)
              (combine (seq 0 (length items)) items).

(** The state of the packing loop. *)
Record Loop : Type := mkLoop {
  l_pack : Pack;
  l_counters : Counters;
  l_store : list MemoryItem;
  l_trace : list Visit
}.

(** One iteration on the loop state: the visited object is updated in
    place, at its position in the store. *)
Definition loop_step (m : FocusManager) (current_query : str)
           (desired : Fidelity) (pos : nat) (it : MemoryItem) (l : Loop)
  : Loop :=
  let s := pack_item m current_query desired it (l_pack l) (l_counters l) in
  mkLoop (s_pack s) (s_counters s)
         (store_set pos (s_item s) (l_store l))
         (l_trace l
            ++ [mkVisit it desired (s_achieved s) (s_emitted s)
                        (s_compressed s) (s_item s)]).

(** The packing loop.  [desired_map[it.id]] raises [KeyError] on a
    missing key: [None]. *)
Fixpoint pack_loop (m : FocusManager) (current_query : str)
         (desired_map : dict) (ordered_items : list (nat * MemoryItem))
         (l : Loop) : option Loop :=
  match ordered_items with
  | [] => Some l
  | (pos, it) :: rest =>
      match desired_map (id it) with
      | None => None
      | Some desired =>
          pack_loop m current_query desired_map rest
                    (loop_step m current_query desired pos it l)
      end
  end.

(** The [stats] dictionary.  Every entry is [float(k)] for an integer
    [k]; the entry is kept as that integer. *)
Record Stats : Type := mkStats {
  budget : Z;
  used : Z;
  st_raw_tokens : Z;
  st_compressed_tokens : Z;
  st_placeholder_tokens : Z;
  st_expanded_count : Z;
  st_compressed_count : Z;
  st_stub_count : Z;
  items_total : Z;
  items_planned_full : Z;
  items_planned_compressed : Z;
  items_planned_stub : Z
}.

(** [sum(1 for _, it in scored if desired_map[it.id] == f)] *)
Fixpoint planned_count (desired_map : dict) (f : Fidelity)
         (scored : list (R * MemoryItem)) : option Z :=
  match scored with
  | [] => Some 0%Z
  | (_, it) :: rest =>
      match desired_map (id it), planned_count desired_map f rest with
      | Some d, Some k => Some ((if Fidelity_eqb d f then 1 else 0) + k)%Z
      | _, _ => None
      end
  end.

(** The result of a call: the returned pair, the manager after the
    in-place updates of its items, and the record of the visits. *)
Record Run : Type := mkRun {
  r_messages : list (str * str);
  r_stats : Stats;
  r_self : FocusManager;
  r_trace : list Visit
}.

(** Lines 118-120: a falsy preamble ([None] or the empty string) is
    skipped. *)
Definition add_preamble (counter : TokenCounter)
           (system_preamble : option str) (p : Pack) : Pack :=
  match system_preamble with
  | Some (x :: s) => snd (try_add counter (lit "system") (x :: s) p)
  | _ => p
  end.

Definition build_context (m : FocusManager) (current_query : str)
           (budget_tokens : Z) (system_preamble : option str)
  : option Run :=
  let q_emb := encode (embedder m) current_query in
  let n := Z.of_nat (length (_items m)) in
  let scored := score_loop m q_emb n 0 (_items m) in
  let items1 := map snd scored in
  let desired_map := plan_loop (cfg m) scored in
  let p := add_preamble (tc m) system_preamble (mkPack [] budget_tokens) in
  let ordered_items := sorted_by_id items1 in
  match pack_loop m current_query desired_map ordered_items
                  (mkLoop p zero_counters items1 []) with
  | None => None
  | Some l =>
      match planned_count desired_map FULL scored,
            planned_count desired_map COMPRESSED scored,
            planned_count desired_map PLACEHOLDER scored with
      | Some pf, Some pc, Some pp =>
          let c := l_counters l in
          Some (mkRun (messages (l_pack l))
                  (mkStats budget_tokens (used_tokens c) (raw_tokens c)
                     (compressed_tokens c) (placeholder_tokens c)
                     (expanded_count c) (compressed_count c) (stub_count c)
                     n pf pc pp)
                  (mkFocusManager (embedder m) (tc m) (compressor m) (cfg m)
                     (l_store l) (_next_id m))
                  (l_trace l))
      | _, _, _ => None
      end
  end.

(** [items()] *)
Definition items (m : FocusManager) : list MemoryItem := _items m.

(* ================================================================== *)
(** * Reachable managers *)
(* ================================================================== *)

(** The managers that the public interface can produce: a constructor
    call followed by any number of [add_message] and [build_context]
    calls. *)
Inductive reachable : FocusManager -> Prop :=
| reach_init : forall py_lower e t c g,
    reachable (init py_lower e t c g)
| reach_add : forall m now r c,
    reachable m -> reachable (fst (add_message m now r c))
| reach_build : forall m q b p r,
    reachable m -> build_context m q b p = Some r -> reachable (r_self r).

(** The part of a turn that no operation changes after its creation. *)
Definition same_turn (a b : MemoryItem) : Prop :=
  id a = id b /\ role a = role b /\ content a = content b
  /\ created_at_s a = created_at_s b /\ token_len a = token_len b.

(** Ordering of fidelities by cost: [cheaper_eq a d] says that [a] is
    not more expensive than [d]. *)
Definition cheaper_eq (a d : Fidelity) : bool :=
  match d, a with
  | FULL, _ => true
  | COMPRESSED, FULL => false
  | COMPRESSED, _ => true
  | PLACEHOLDER, PLACEHOLDER => true
  | PLACEHOLDER, _ => false
  end.

(** The counter update that goes with an achieved fidelity. *)
Definition bump (f : Fidelity) (k : Z) (c : Counters) : Counters :=
  match f with
  | FULL => count_full k c
  | COMPRESSED => count_compressed k c
  | PLACEHOLDER => count_stub k c
  end.

(** The text that a fidelity emits for a turn. *)
Definition text_of (m : FocusManager) (f : Fidelity) (it : MemoryItem)
  : str :=
  match f with
  | FULL => content it
  | COMPRESSED => match compressed_text it with Some s => s | None => [] end
  | PLACEHOLDER => _make_stub m it
  end.

(** The message that the preamble contributes. *)
Definition preamble_message (counter : TokenCounter)
           (system_preamble : option str) (budget_tokens : Z)
  : list (str * str) :=
  match system_preamble with
  | Some (x :: s) =>
      if (count counter (x :: s) <=? budget_tokens)%Z
      then [(lit "system", x :: s)] else []
  | _ => []
  end.

(** Total token cost of a list of messages. *)
Definition total_cost (counter : TokenCounter) (msgs : list (str * str))
  : Z :=
  fold_right (fun rt acc => (count counter (snd rt) + acc)%Z) 0%Z msgs.

(** The emitted turn messages of a trace, each with the id of its turn. *)
Definition emitted_turns (trace : list Visit) : list (Z * (str * str)) :=
  flat_map (fun v => match v_emitted v with
                     | Some msg => [(id (v_item v), msg)]
                     | None => []
                     end) trace.

(** The ids of the turns for which the compressor was called. *)
Definition compressor_calls (trace : list Visit) : list Z :=
  flat_map (fun v => if v_compressed v then [id (v_item v)] else []) trace.

(** A word: a non-empty run of code points without white space. *)
Definition word (w : str) : Prop :=
  w <> [] /\ forallb (fun c => negb (is_space c)) w = true.

(** What the record of a visit must satisfy: the achieved fidelity is
    not more expensive than the planned one, it is the one written to
    the turn, and the message emitted is the turn's text at that
    fidelity; a turn that fits at no fidelity emits nothing and keeps
    its state. *)
Definition visit_ok (m : FocusManager) (v : Visit) : Prop :=
  match v_achieved v with
  | Some f =>
      cheaper_eq f (v_desired v) = true
      /\ compression_state (v_after v) = f
      /\ v_emitted v = Some (role (v_item v), text_of m f (v_after v))
  | None =>
      v_emitted v = None
      /\ compression_state (v_after v) = compression_state (v_item v)
  end.

(** The claim of the cascade, case by case. *)
Definition never_upgraded (v : Visit) : Prop :=
  match v_desired v with
  | FULL =>
      v_achieved v = Some FULL \/ v_achieved v = Some COMPRESSED
      \/ v_achieved v = Some PLACEHOLDER \/ v_achieved v = None
  | COMPRESSED =>
      v_achieved v = Some COMPRESSED \/ v_achieved v = Some PLACEHOLDER
      \/ v_achieved v = None
  | PLACEHOLDER =>
      v_achieved v = Some PLACEHOLDER \/ v_achieved v = None
  end.

(** What an iteration can do: leave everything as it was, or append one
    message of the visited turn and account for it. *)
Inductive step_result (m : FocusManager) (desired : Fidelity)
          (it : MemoryItem) (p : Pack) (c : Counters) (s : Step) : Prop :=
| step_skipped :
    s_emitted s = None -> s_achieved s = None ->
    s_pack s = p -> s_counters s = c ->
    compression_state (s_item s) = compression_state it ->
    step_result m desired it p c s
| step_emitted (f : Fidelity) (text : str) :
    s_emitted s = Some (role it, text) -> s_achieved s = Some f ->
    cheaper_eq f desired = true ->
    messages (s_pack s) = messages p ++ [(role it, text)] ->
    budget_left (s_pack s) = (budget_left p - count (tc m) text)%Z ->
    (count (tc m) text <= budget_left p)%Z ->
    s_counters s
    = bump f (match f with
              | FULL => token_len it
              | _ => count (tc m) text
              end) c ->
    compression_state (s_item s) = f ->
    text = text_of m f (s_item s) ->
    step_result m desired it p c s.

(** A turn [b] is a later state of the turn [a]: the same turn, and a
    non-empty memoized text is kept. *)
Definition evolves (a b : MemoryItem) : Prop :=
  same_turn a b
  /\ forall x s, compressed_text a = Some (x :: s) ->
                 compressed_text b = Some (x :: s).

(** Invariants of the packing loop, relative to the closure variables
    [p0] at loop entry.  [accounts]: the messages are the ones recorded in
    the trace, the counters add up, and every visit is in order. *)
Definition accounts (m : FocusManager) (p0 : Pack) (l : Loop) : Prop :=
  let c := l_counters l in
  messages (l_pack l)
  = messages p0 ++ map snd (emitted_turns (l_trace l))
  /\ used_tokens c
     = (raw_tokens c + compressed_tokens c + placeholder_tokens c)%Z
  /\ (expanded_count c + compressed_count c + stub_count c)%Z
     = Z.of_nat (length (emitted_turns (l_trace l)))
  /\ Forall (visit_ok m) (l_trace l).

(** [balanced]: what the turns were charged is what left the budget, and
    it is the cost of their messages. *)
Definition balanced (m : FocusManager) (p0 : Pack) (l : Loop) : Prop :=
  (budget_left (l_pack l) + used_tokens (l_counters l))%Z = budget_left p0
  /\ ((0 <= budget_left p0)%Z -> (0 <= budget_left (l_pack l))%Z)
  /\ total_cost (tc m) (map snd (emitted_turns (l_trace l)))
     = used_tokens (l_counters l).

(** Names for the intermediate values of [build_context]: the scored
    turns, the plan, and the closure variables at loop entry. *)
Definition scored_of (m : FocusManager) (current_query : str)
  : list (R * MemoryItem) :=
  score_loop m (encode (embedder m) current_query)
             (Z.of_nat (length (_items m))) 0 (_items m).

Definition plan_for (m : FocusManager) (current_query : str) : dict :=
  plan_loop (cfg m) (scored_of m current_query).

Definition entry_pack (m : FocusManager) (budget_tokens : Z)
           (system_preamble : option str) : Pack :=
  add_preamble (tc m) system_preamble (mkPack [] budget_tokens).

Definition entry_loop (m : FocusManager) (current_query : str)
           (budget_tokens : Z) (system_preamble : option str) : Loop :=
  mkLoop (entry_pack m budget_tokens system_preamble) zero_counters
         (map snd (scored_of m current_query)) [].

(** How the record of a visit relates to the turn as the call found it
    and to the turn as the call left it. *)
Definition planned_as (d : dict) (it : MemoryItem) (v : Visit) : Prop :=
  id (v_item v) = id it /\ d (id it) = Some (v_desired v).

Definition recorded_as (v : Visit) (it' : MemoryItem) : Prop :=
  match v_achieved v with
  | Some f => compression_state it' = f
  | None => compression_state it' = compression_state (v_item v)
  end.

(** The order that a stable sort by id produces on (position, turn)
    pairs: by id, and by position among equal ids. *)
Definition id_then_position (a b : nat * MemoryItem) : Prop :=
  (id (snd a) < id (snd b))%Z
  \/ (id (snd a) = id (snd b) /\ (fst a < fst b)%nat).

(** Invariant of the managers that the interface produces: cached token
    lengths are right and ids increase with the position, below
    [_next_id]. *)
Definition well_formed (m : FocusManager) : Prop :=
  Forall (fun it => token_len it = count (tc m) (content it)) (_items m)
  /\ StronglySorted Z.lt (map id (_items m))
  /\ Forall (fun it => (id it < _next_id m)%Z) (_items m).

(* ================================================================== *)
(** * Concrete managers used in the examples *)
(* ================================================================== *)

Module Fixtures.

(** Lower-casing of the ASCII letters. *)
Definition ascii_lower (s : str) : str :=
  map (fun c => if ((65 <=? c) && (c <=? 90))%N then (c + 32)%N else c) s.

(** An embedder with two directions: the empty text goes to the zero
    vector (as it does under [HashingEmbedder]), any other text to the
    first unit vector. *)
Definition unit_embedder : Embedder :=
  mkEmbedder 2 (fun s => match s with
                         | [] => [0%R; 0%R]
                         | _ :: _ => [1%R; 0%R]
                         end).

(** [FocusConfig(max_placeholder_tokens=2)] *)
Definition tight_config : FocusConfig := mkFocusConfig 0.55 0.30 12 2 0.35.

(** [FocusManager(unit_embedder, TokenCounter(), config=tight_config)]
    without tiktoken, after [add_message("user", "hello there")]. *)
Definition tight_manager : FocusManager :=
  fst (add_message
         (init ascii_lower unit_embedder whitespace_counter None
               (Some tight_config))
         0%R (lit "user") (lit "hello there")).

(** [FocusManager(unit_embedder, TokenCounter())] without tiktoken, after
    two [add_message] calls. *)
Definition demo_manager : FocusManager :=
  fst (add_message
         (fst (add_message
                 (init ascii_lower unit_embedder whitespace_counter None
                       None)
                 0%R (lit "user") (lit "plan a trip to Chicago")))
         1%R (lit "assistant") (lit "river tour and deep dish pizza")).

(** [FocusConfig(high_threshold=0.30, mid_threshold=0.55)]: the thresholds
    the wrong way round. *)
Definition inverted_config : FocusConfig :=
  mkFocusConfig 0.30 0.55 12 12 0.35.

(** [FocusManager(unit_embedder, TokenCounter())] without tiktoken, after
    [add_message("user", "hello there")]. *)
Definition solo_manager : FocusManager :=
  fst (add_message
         (init ascii_lower unit_embedder whitespace_counter None None)
         0%R (lit "user") (lit "hello there")).

Definition solo_turn : MemoryItem :=
  mkMemoryItem 1 (lit "user") (lit "hello there") 0%R 2
               (Some [1%R; 0%R]) FULL None 0%R.

(** [FocusConfig(mid_threshold=0.0)] *)
Definition zero_mid_config : FocusConfig :=
  mkFocusConfig 0.55 0 12 12 0.35.

(** [FocusManager(unit_embedder, TokenCounter(), config=zero_mid_config)]
    without tiktoken and with the default compressor, after
    [add_message("user", "")]. *)
Definition blank_manager : FocusManager :=
  fst (add_message
         (init ascii_lower unit_embedder whitespace_counter None
               (Some zero_mid_config))
         0%R (lit "user") []).

Definition blank_turn : MemoryItem :=
  mkMemoryItem 1 (lit "user") [] 0%R 0 (Some [0%R; 0%R]) FULL None 0%R.

(** The manager after [add_message("user", "hello")] and one
    [build_context("", 10)] under [zero_mid_config]: the turn was planned
    COMPRESSED and its memo is the text itself. *)
Definition memo_turn : MemoryItem :=
  mkMemoryItem 1 (lit "user") (lit "hello") 0%R 1 (Some [1%R; 0%R])
               COMPRESSED (Some (lit "hello")) 0%R.

Definition memo_manager : FocusManager :=
  mkFocusManager unit_embedder whitespace_counter
                 (HeuristicCompressor ascii_lower whitespace_counter)
                 zero_mid_config [memo_turn] 2.

Definition tight_turn : MemoryItem :=
  mkMemoryItem 1 (lit "user") (lit "hello there") 0%R 2
               (Some [1%R; 0%R]) FULL None 0%R.

End Fixtures.

Unset Implicit Arguments.

(* ================================================================== *)
(** * Words and token counts *)
(* ================================================================== *)

Section Words.

Lemma count_nonneg (counter : TokenCounter) (text : str) :
  (0 <= count counter text)%Z.
Proof.
  unfold count, fallback_count.
  destruct (negb (truthy text)); [lia|].
  destruct (_enc counter) as [enc|]; [destruct (enc text)|]; lia.
Qed.

Lemma count_empty (counter : TokenCounter) : count counter [] = 0%Z.
Proof. reflexivity. Qed.

Lemma count_whitespace (counter : TokenCounter) (text : str) :
  _enc counter = None -> text <> [] ->
  count counter text = fallback_count text.
Proof.
  intros He Hne. unfold count. rewrite He.
  destruct text; [congruence | reflexivity].
Qed.

Lemma split_from_space (cur a b : str) (c : N) :
  is_space c = true ->
  split_from cur (a ++ c :: b) = split_from cur a ++ split_from [] b.
Proof.
  intros Hc. revert cur.
  induction a as [|x a IH]; intros cur; simpl.
  - now rewrite Hc.
  - destruct (is_space x).
    + now rewrite IH, app_assoc.
    + apply IH.
Qed.

Lemma split_from_solid (w cur : str) :
  forallb (fun c => negb (is_space c)) w = true ->
  split_from cur w = flush (rev w ++ cur).
Proof.
  revert cur. induction w as [|c w IH]; intros cur Hw; simpl in *.
  - reflexivity.
  - apply andb_prop in Hw. destruct Hw as [Hc Hw].
    apply negb_true_iff in Hc. rewrite Hc, IH by assumption.
    now rewrite <- app_assoc.
Qed.

Lemma split_word (w : str) : word w -> split w = [w].
Proof.
  intros [Hne Hw]. unfold split. rewrite split_from_solid by assumption.
  rewrite app_nil_r. unfold flush.
  destruct (rev w) eqn:E.
  - apply (f_equal (@rev N)) in E. rewrite rev_involutive in E.
    simpl in E. congruence.
  - now rewrite <- E, rev_involutive.
Qed.

Lemma forallb_reverse (f : N -> bool) (l : str) :
  forallb f (rev l) = forallb f l.
Proof.
  induction l as [|c l IH]; simpl; [reflexivity|].
  rewrite forallb_app, IH. simpl. rewrite andb_true_r. apply andb_comm.
Qed.

Lemma split_from_words (s cur : str) :
  forallb (fun c => negb (is_space c)) cur = true ->
  Forall word (split_from cur s).
Proof.
  assert (Hflush : forall cur,
             forallb (fun c => negb (is_space c)) cur = true ->
             Forall word (flush cur)).
  { intros [|c cur'] H; simpl; constructor; [|constructor].
    split.
    - intro E. apply (f_equal (@length N)) in E.
      rewrite length_app in E. simpl in E. lia.
    - rewrite forallb_app, forallb_reverse. simpl in *.
      apply andb_prop in H. destruct H as [H1 H2].
      now rewrite H1, H2. }
  revert cur. induction s as [|c s IH]; intros cur Hcur; simpl.
  - now apply Hflush.
  - destruct (is_space c) eqn:Hc.
    + apply Forall_app. split; [now apply Hflush | now apply IH].
    + apply IH. simpl. now rewrite Hc, Hcur.
Qed.

Lemma split_words (s : str) : Forall word (split s).
Proof. now apply split_from_words. Qed.

Lemma is_space_space : is_space space = true.
Proof. reflexivity. Qed.

Lemma split_join (ws : list str) :
  Forall word ws -> split (join [space] ws) = ws.
Proof.
  induction 1 as [|w ws Hw Hws IH]; [reflexivity|].
  destruct ws as [|w2 ws'].
  - now apply split_word.
  - change (join [space] (w :: w2 :: ws'))
      with (w ++ space :: join [space] (w2 :: ws')).
    unfold split in *.
    rewrite split_from_space by apply is_space_space.
    rewrite IH. fold (split w). now rewrite split_word.
Qed.

Lemma split_lstrip (s : str) : split (drop_while is_space s) = split s.
Proof.
  unfold split. induction s as [|c s IH]; simpl; [reflexivity|].
  destruct (is_space c) eqn:Hc; simpl; [assumption|].
  now rewrite Hc.
Qed.

Lemma split_rstrip (y : str) :
  split (rev (drop_while is_space y)) = split (rev y).
Proof.
  induction y as [|c y IH]; simpl; [reflexivity|].
  destruct (is_space c) eqn:Hc; simpl; [|reflexivity].
  rewrite IH. unfold split.
  rewrite split_from_space by assumption.
  simpl. now rewrite app_nil_r.
Qed.

Lemma split_strip (s : str) : split (strip s) = split s.
Proof.
  unfold strip, strip_chars.
  now rewrite split_rstrip, rev_involutive, split_lstrip.
Qed.

Lemma fallback_count_strip (s : str) :
  fallback_count (strip s) = fallback_count s.
Proof. unfold fallback_count. now rewrite split_strip. Qed.

Lemma count_word (counter : TokenCounter) (w : str) :
  _enc counter = None -> word w -> count counter w = 1%Z.
Proof.
  intros He Hw. rewrite count_whitespace by (assumption || apply Hw).
  unfold fallback_count. now rewrite split_word.
Qed.

(** Under the white-space counter the greedy loop keeps at most
    [target_tokens] words. *)
Lemma truncate_loop_words (counter : TokenCounter) (target : Z)
      (toks out : list str) :
  _enc counter = None -> Forall word toks -> Forall word out ->
  Forall word (truncate_loop counter target toks out
                             (Z.of_nat (length out)))
  /\ (Z.of_nat (length (truncate_loop counter target toks out
                                      (Z.of_nat (length out))))
      <= Z.max target (Z.of_nat (length out)))%Z.
Proof.
  intros He Htoks. revert out.
  induction Htoks as [|w toks Hw Htoks IH]; intros out Hout; simpl.
  - rewrite length_rev. split; [now apply Forall_rev | lia].
  - rewrite (count_word counter w He Hw).
    destruct (Z.of_nat (length out) + 1 >? target)%Z eqn:Hgt.
    + rewrite length_rev. split; [now apply Forall_rev | lia].
    + replace (Z.of_nat (length out) + 1)%Z
        with (Z.of_nat (length (w :: out))) by (simpl length; lia).
      destruct (IH (w :: out)) as [H1 H2]; [now constructor|].
      split; [assumption|].
      simpl length in *. lia.
Qed.

End Words.

(** The fuel of [str_of_N] is enough: the digits denote the number. *)
Lemma digits_fuel_value (fuel : nat) :
  forall (n : N) (acc : str),
    (n < 2 ^ N.of_nat fuel)%N ->
    fold_left (fun v c => (10 * v + (c - 48))%N) (digits_fuel fuel n acc)
              0%N
    = fold_left (fun v c => (10 * v + (c - 48))%N) acc n.
Proof.
  induction fuel as [|fuel IH]; intros n acc Hn.
  - simpl in *. f_equal. lia.
  - cbn [digits_fuel].
    assert (Hstep : (10 * (n / 10) + (48 + n mod 10 - 48) = n)%N).
    { pose proof (N.div_mod n 10 ltac:(discriminate)) as Hd.
      rewrite (N.add_comm 48), N.add_sub. now rewrite <- Hd. }
    destruct (n / 10 =? 0)%N eqn:E.
    + apply N.eqb_eq in E. cbn [fold_left].
      f_equal. rewrite E in Hstep. lia.
    + rewrite IH.
      * cbn [fold_left]. now rewrite Hstep.
      * rewrite Nat2N.inj_succ, N.pow_succ_r' in Hn.
        apply N.Div0.div_lt_upper_bound. lia.
Qed.

Lemma str_of_N_value (n : N) : digits_value (str_of_N n) = n.
Proof.
  unfold digits_value, str_of_N. rewrite digits_fuel_value; [reflexivity|].
  rewrite Nat2N.inj_succ, N2Nat.id.
  destruct n as [|p]; [reflexivity|].
  apply N.log2_spec. lia.
Qed.

(* ================================================================== *)
(** * Stubs *)
(* ================================================================== *)

Lemma stub_prefix_ends_with_space (it : MemoryItem) :
  exists pre, stub_prefix it = pre ++ [space].
Proof.
  exists (lit "[ref #" ++ str_of_Z (id it) ++ [space; bullet; space]
              ++ role it ++ lit "]").
  unfold stub_prefix. now rewrite <- !app_assoc.
Qed.

Lemma stub_prefix_nonempty (it : MemoryItem) : stub_prefix it <> [].
Proof. unfold stub_prefix. discriminate. Qed.

Lemma count_strip_le (counter : TokenCounter) (s : str) :
  _enc counter = None -> (count counter (strip s) <= count counter s)%Z.
Proof.
  intros He. destruct (strip s) as [|c s'] eqn:E.
  - apply count_nonneg.
  - rewrite <- E, count_whitespace by (assumption || congruence).
    rewrite fallback_count_strip.
    destruct s as [|d s0]; [discriminate E|].
    rewrite count_whitespace by (assumption || discriminate). lia.
Qed.

Lemma stub_cost_max (m : FocusManager) (it : MemoryItem) :
  _enc (tc m) = None ->
  (count (tc m) (_make_stub m it)
   <= Z.max (max_placeholder_tokens (cfg m))
            (count (tc m) (stub_prefix it)))%Z.
Proof.
  intros He. unfold _make_stub.
  set (prefix := stub_prefix it).
  set (room := Z.max 0 (max_placeholder_tokens (cfg m)
                        - count (tc m) prefix)).
  destruct (room <=? 0)%Z eqn:Hroom.
  - pose proof (count_strip_le (tc m) prefix He). lia.
  - apply Z.leb_gt in Hroom.
    unfold truncate_to_tokens.
    set (head := firstn 200 (first_line (strip (content it)))).
    destruct (truncate_loop_words (tc m) room (split head) []
                He (split_words head) (Forall_nil _)) as [Hw Hlen].
    simpl length in Hw, Hlen. simpl Z.of_nat in Hw, Hlen.
    set (out := truncate_loop (tc m) room (split head) [] 0) in *.
    destruct (stub_prefix_ends_with_space it) as [pre Hpre].
    fold prefix in Hpre.
    assert (Hsplit : split (prefix ++ join [space] out)
                     = split pre ++ out).
    { rewrite Hpre, <- app_assoc. simpl. unfold split.
      rewrite split_from_space by apply is_space_space.
      fold (split (join [space] out)). now rewrite split_join. }
    assert (Hp : split prefix = split pre).
    { rewrite Hpre. unfold split.
      rewrite split_from_space by apply is_space_space.
      simpl. now rewrite app_nil_r. }
    assert (Hne : prefix ++ join [space] out <> []).
    { pose proof (stub_prefix_nonempty it) as Hn. fold prefix in Hn.
      destruct prefix; [congruence | discriminate]. }
    rewrite (count_whitespace (tc m) _ He Hne).
    pose proof (count_whitespace (tc m) _ He (stub_prefix_nonempty it)) as Hc.
    fold prefix in Hc.
    unfold fallback_count in *. rewrite Hsplit, length_app.
    rewrite Hp in Hc. lia.
Qed.

(** C6, as amended: with the white-space counter a stub costs at most
    [max_placeholder_tokens] whenever the reference prefix costs less
    than that; when the prefix alone meets or exceeds
    [max_placeholder_tokens] the stub is the stripped prefix, and in
    every case the stub costs at most the larger of
    [max_placeholder_tokens] and the cost of the prefix. *)
Theorem stub_cost_bound (m : FocusManager) (it : MemoryItem) :
  _enc (tc m) = None ->
  (count (tc m) (_make_stub m it)
   <= Z.max (max_placeholder_tokens (cfg m))
            (count (tc m) (stub_prefix it)))%Z
  /\ ((count (tc m) (stub_prefix it) < max_placeholder_tokens (cfg m))%Z ->
      (count (tc m) (_make_stub m it) <= max_placeholder_tokens (cfg m))%Z)
  /\ ((max_placeholder_tokens (cfg m) <= count (tc m) (stub_prefix it))%Z ->
      _make_stub m it = strip (stub_prefix it)).
Proof.
  intros He. pose proof (stub_cost_max m it He) as Hmax.
  split; [exact Hmax|]. split; [lia|].
  intros Hle. unfold _make_stub.
  destruct (Z.max 0 (max_placeholder_tokens (cfg m)
                     - count (tc m) (stub_prefix it)) <=? 0)%Z eqn:E;
    [reflexivity|].
  apply Z.leb_gt in E. lia.
Qed.

(** C6, witness: the stubs of [tight_manager], whose prefix exceeds the
    limit of 2 tokens. *)
Lemma stub_cost_bound_witness :
  _enc (tc Fixtures.tight_manager) = None
  /\ (count (tc Fixtures.tight_manager)
            (_make_stub Fixtures.tight_manager Fixtures.tight_turn)
      <= Z.max (max_placeholder_tokens (cfg Fixtures.tight_manager))
               (count (tc Fixtures.tight_manager)
                      (stub_prefix Fixtures.tight_turn)))%Z
  /\ ((count (tc Fixtures.tight_manager) (stub_prefix Fixtures.tight_turn)
       < max_placeholder_tokens (cfg Fixtures.tight_manager))%Z ->
      (count (tc Fixtures.tight_manager)
             (_make_stub Fixtures.tight_manager Fixtures.tight_turn)
       <= max_placeholder_tokens (cfg Fixtures.tight_manager))%Z)
  /\ ((max_placeholder_tokens (cfg Fixtures.tight_manager)
       <= count (tc Fixtures.tight_manager)
                (stub_prefix Fixtures.tight_turn))%Z ->
      _make_stub Fixtures.tight_manager Fixtures.tight_turn
      = strip (stub_prefix Fixtures.tight_turn)).
Proof.
  split; [reflexivity|].
  apply (stub_cost_bound Fixtures.tight_manager Fixtures.tight_turn).
  reflexivity.
Defined.

(** C6, as stated, fails: with [max_placeholder_tokens = 2] the stub of
    turn 1 is the prefix alone, which costs 4 tokens. *)
Lemma stub_exceeds_limit :
  (0 < max_placeholder_tokens (cfg Fixtures.tight_manager))%Z
  /\ _make_stub Fixtures.tight_manager Fixtures.tight_turn
     = lit "[ref #1 " ++ [bullet] ++ lit " user]"
  /\ count (tc Fixtures.tight_manager)
           (_make_stub Fixtures.tight_manager Fixtures.tight_turn) = 4%Z
  /\ ~ (count (tc Fixtures.tight_manager)
              (_make_stub Fixtures.tight_manager Fixtures.tight_turn)
        <= max_placeholder_tokens (cfg Fixtures.tight_manager))%Z.
Proof.
  assert (E : _make_stub Fixtures.tight_manager Fixtures.tight_turn
              = lit "[ref #1 " ++ [bullet] ++ lit " user]")
    by reflexivity.
  rewrite E. repeat split; try reflexivity.
  intros H. revert H. change (~ (4 <= 2)%Z). lia.
Qed.

(* ================================================================== *)
(** * One iteration of the packing loop *)
(* ================================================================== *)

Ltac case_try_add :=
  match goal with
  | |- context [(?a <=? ?b)%Z] =>
      let H := fresh "Hfit" in
      destruct (a <=? b)%Z eqn:H;
      [apply Z.leb_le in H | apply Z.leb_gt in H]
  end.

Lemma try_stub_result (m : FocusManager) (desired : Fidelity)
      (called : bool) (it : MemoryItem) (p : Pack) (c : Counters) :
  step_result m desired it p c (try_stub m called it p c).
Proof.
  unfold try_stub, try_add. case_try_add.
  - eapply step_emitted with (f := PLACEHOLDER);
      try reflexivity; [now destruct desired | assumption].
  - now apply step_skipped.
Qed.

Lemma try_compressed_result (m : FocusManager) (q : str)
      (desired : Fidelity) (it : MemoryItem) (p : Pack) (c : Counters) :
  desired <> PLACEHOLDER ->
  step_result m desired it p c (try_compressed m q it p c).
Proof.
  intros Hd. unfold try_compressed.
  destruct (compressed_or_compress m q it) as [comp called].
  unfold try_add. cbn [role set_compressed_text]. case_try_add.
  - eapply step_emitted with (f := COMPRESSED);
      try reflexivity; [now destruct desired | assumption].
  - destruct (try_stub_result m desired called
                (set_compressed_text (Some comp) it) p c) as [? ? ? ? ?|];
      [now apply step_skipped | eapply step_emitted; eassumption].
Qed.

Lemma pack_item_result (m : FocusManager) (q : str) (desired : Fidelity)
      (it : MemoryItem) (p : Pack) (c : Counters) :
  step_result m desired it p c (pack_item m q desired it p c).
Proof.
  destruct desired; unfold pack_item.
  - unfold try_add. case_try_add.
    + eapply step_emitted with (f := FULL);
        try reflexivity; assumption.
    + now apply try_compressed_result.
  - now apply try_compressed_result.
  - apply try_stub_result.
Qed.

Lemma same_turn_refl (a : MemoryItem) : same_turn a a.
Proof. now repeat split. Qed.

Lemma same_turn_trans (a b c : MemoryItem) :
  same_turn a b -> same_turn b c -> same_turn a c.
Proof. unfold same_turn. intuition congruence. Qed.

Lemma evolves_refl (a : MemoryItem) : evolves a a.
Proof. split; [apply same_turn_refl | auto]. Qed.

Lemma evolves_trans (a b c : MemoryItem) :
  evolves a b -> evolves b c -> evolves a c.
Proof.
  intros [H1 H2] [H3 H4]. split; [eapply same_turn_trans; eauto | auto].
Qed.

Lemma pack_item_evolves (m : FocusManager) (q : str) (desired : Fidelity)
      (it : MemoryItem) (p : Pack) (c : Counters) :
  evolves it (s_item (pack_item m q desired it p c)).
Proof.
  unfold pack_item, try_compressed, try_stub, compressed_or_compress,
    try_add.
  destruct desired;
    repeat match goal with
           | |- context [if ?b then _ else _] => destruct b
           | |- context [match compressed_text it with _ => _ end] =>
               destruct (compressed_text it) as [[|? ?]|] eqn:?
           end;
    (split; [now repeat split | intros; cbn; congruence]).
Qed.

(** The compressor is not called for a turn whose memoized text is
    non-empty. *)
Lemma pack_item_memo (m : FocusManager) (q : str) (desired : Fidelity)
      (it : MemoryItem) (p : Pack) (c : Counters) (x : N) (s : str) :
  compressed_text it = Some (x :: s) ->
  s_compressed (pack_item m q desired it p c) = false.
Proof.
  intros Hm.
  unfold pack_item, try_compressed, try_stub, compressed_or_compress,
    try_add.
  rewrite Hm.
  destruct desired;
    repeat match goal with
           | |- context [if ?b then _ else _] => destruct b
           end; reflexivity.
Qed.

Lemma score_item_evolves (m : FocusManager) (q_emb : list R) (n idx : Z)
      (it : MemoryItem) :
  evolves it (snd (score_item m q_emb n idx it)).
Proof. split; [now repeat split | auto]. Qed.

(* ================================================================== *)
(** * Sorting by id *)
(* ================================================================== *)

Section SortFacts.
Variable A : Type.
Variable before : A -> A -> bool.

Lemma insert_sorted_perm (x : A) (l : list A) :
  Permutation (insert_sorted before x l) (x :: l).
Proof.
  induction l as [|y l IH]; simpl; [reflexivity|].
  destruct (before y x); [|reflexivity].
  rewrite IH. apply perm_swap.
Qed.

Lemma stable_sort_perm (l : list A) : Permutation (stable_sort before l) l.
Proof.
  induction l as [|x l IH]; simpl; [reflexivity|].
  rewrite insert_sorted_perm. now constructor.
Qed.

(** Sorting a list that is already in order returns it. *)
Lemma stable_sort_ordered (l : list A) :
  StronglySorted (fun a b => before b a = false) l ->
  stable_sort before l = l.
Proof.
  induction 1 as [|x l Hl IH Hx]; simpl; [reflexivity|].
  rewrite IH. destruct l as [|y l']; simpl; [reflexivity|].
  inversion Hx as [|? ? Hy _]; subst. now rewrite Hy.
Qed.
End SortFacts.

Lemma enumerate_lookup (items : list MemoryItem) (k pos : nat)
      (it : MemoryItem) :
  In (pos, it) (combine (seq k (length items)) items) ->
  In it items.
Proof. apply in_combine_r. Qed.

Lemma sorted_by_id_members (items : list MemoryItem) (pos : nat)
      (it : MemoryItem) :
  In (pos, it) (sorted_by_id items) -> In it items.
Proof.
  intros H. unfold sorted_by_id in H.
  eapply Permutation_in in H; [|apply stable_sort_perm].
  eapply enumerate_lookup; eassumption.
Qed.

Lemma enumerate_ordered (items : list MemoryItem) (k : nat) :
  StronglySorted Z.lt (map id items) ->
  StronglySorted
    (fun a b : nat * MemoryItem => (id (snd b) <? id (snd a))%Z = false)
    (combine (seq k (length items)) items).
Proof.
  revert k. induction items as [|it items IH]; intros k Hs; simpl.
  - constructor.
  - inversion Hs as [|? ? Hs' Hall]; subst. constructor; [now apply IH|].
    apply Forall_forall. intros [pos it'] Hin.
    apply in_combine_r in Hin.
    rewrite Forall_forall in Hall.
    specialize (Hall (id it') (in_map id _ _ Hin)).
    simpl. apply Z.ltb_ge. lia.
Qed.

(** On a store whose ids increase with the position, [sorted] visits the
    turns in store order. *)
Lemma sorted_by_id_ordered (items : list MemoryItem) :
  StronglySorted Z.lt (map id items) ->
  sorted_by_id items = combine (seq 0 (length items)) items.
Proof.
  intros Hs. unfold sorted_by_id.
  apply stable_sort_ordered. now apply enumerate_ordered.
Qed.

(* ================================================================== *)
(** * Scoring and planning *)
(* ================================================================== *)

Lemma score_loop_length (m : FocusManager) (q_emb : list R) (n idx : Z)
      (items : list MemoryItem) :
  length (score_loop m q_emb n idx items) = length items.
Proof.
  revert idx. induction items as [|it items IH]; intros idx; simpl;
    [reflexivity | now rewrite IH].
Qed.

Lemma score_loop_evolves (m : FocusManager) (q_emb : list R) (n idx : Z)
      (items : list MemoryItem) :
  Forall2 evolves items (map snd (score_loop m q_emb n idx items)).
Proof.
  revert idx. induction items as [|it items IH]; intros idx; simpl;
    constructor; [apply score_item_evolves | apply IH].
Qed.

Lemma plan_loop_defined (c : FocusConfig) (scored : list (R * MemoryItem))
      (d : dict) (k : Z) :
  d k <> None \/ In k (map (fun si => id (snd si)) scored) ->
  fold_left (fun d si => dict_set d (id (snd si)) (plan_of c (fst si)))
            scored d k <> None.
Proof.
  revert d. induction scored as [|[s it] scored IH]; intros d H; simpl.
  - destruct H as [H|[]]. assumption.
  - apply IH. simpl in H. unfold dict_set at 1.
    destruct (k =? id it)%Z eqn:E.
    + left. discriminate.
    + apply Z.eqb_neq in E. destruct H as [H|[H|H]]; auto; congruence.
Qed.

Lemma planned_count_defined (d : dict) (f : Fidelity)
      (scored : list (R * MemoryItem)) :
  (forall si, In si scored -> d (id (snd si)) <> None) ->
  exists k, planned_count d f scored = Some k.
Proof.
  induction scored as [|[s it] scored IH]; intros H; simpl.
  - now exists 0%Z.
  - destruct IH as [k Hk]; [intros; apply H; now right|].
    rewrite Hk.
    destruct (d (id it)) as [x|] eqn:E.
    + eauto.
    + exfalso. apply (H (s, it)); [now left | exact E].
Qed.

(* ================================================================== *)
(** * The packing loop *)
(* ================================================================== *)

Lemma pack_loop_preserves (P : Loop -> Prop) (m : FocusManager) (q : str)
      (d : dict) (ordered : list (nat * MemoryItem)) :
  (forall l pos it desired,
      In (pos, it) ordered -> d (id it) = Some desired ->
      P l -> P (loop_step m q desired pos it l)) ->
  forall l l', P l -> pack_loop m q d ordered l = Some l' -> P l'.
Proof.
  induction ordered as [|[pos it] rest IH]; intros Hstep l l' Hl Hrun;
    simpl in Hrun.
  - now inversion Hrun; subst.
  - destruct (d (id it)) as [desired|] eqn:Hd; [|discriminate].
    eapply IH; [| |exact Hrun].
    + intros; eapply Hstep; eauto. now right.
    + eapply Hstep; eauto. now left.
Qed.

Lemma pack_loop_total (m : FocusManager) (q : str) (d : dict)
      (ordered : list (nat * MemoryItem)) (l : Loop) :
  (forall pos it, In (pos, it) ordered -> d (id it) <> None) ->
  exists l', pack_loop m q d ordered l = Some l'.
Proof.
  revert l. induction ordered as [|[pos it] rest IH]; intros l H; simpl.
  - eauto.
  - destruct (d (id it)) as [desired|] eqn:Hd.
    + apply IH. intros; eapply H; right; eauto.
    + exfalso. eapply H; [left; reflexivity | exact Hd].
Qed.

Lemma emitted_turns_snoc (trace : list Visit) (v : Visit) :
  emitted_turns (trace ++ [v])
  = emitted_turns trace
      ++ match v_emitted v with
         | Some msg => [(id (v_item v), msg)]
         | None => []
         end.
Proof.
  unfold emitted_turns. rewrite flat_map_app. simpl.
  now rewrite app_nil_r.
Qed.

Lemma total_cost_app (counter : TokenCounter) (a b : list (str * str)) :
  total_cost counter (a ++ b)
  = (total_cost counter a + total_cost counter b)%Z.
Proof.
  induction a as [|x a IH]; simpl; [reflexivity|]. rewrite IH. lia.
Qed.

Lemma step_visit_ok (m : FocusManager) (q : str) (desired : Fidelity)
      (it : MemoryItem) (p : Pack) (c : Counters) :
  visit_ok m (mkVisit it desired
                (s_achieved (pack_item m q desired it p c))
                (s_emitted (pack_item m q desired it p c))
                (s_compressed (pack_item m q desired it p c))
                (s_item (pack_item m q desired it p c))).
Proof.
  unfold visit_ok. cbn [v_achieved v_desired v_after v_emitted v_item].
  destruct (pack_item_result m q desired it p c)
    as [He Ha _ _ Hs | f text He Ha Hc _ _ _ _ Hs Ht].
  - rewrite Ha. now split.
  - rewrite Ha. repeat split; try assumption. now rewrite He, Ht.
Qed.

Lemma loop_step_accounts (m : FocusManager) (q : str) (p0 : Pack)
      (desired : Fidelity) (pos : nat) (it : MemoryItem) (l : Loop) :
  accounts m p0 l -> accounts m p0 (loop_step m q desired pos it l).
Proof.
  intros (Hm & Hu & Hn & Hv). unfold accounts, loop_step.
  cbn [l_pack l_counters l_trace].
  assert (Hv' : Forall (visit_ok m)
                  (l_trace l
                   ++ [mkVisit it desired
                         (s_achieved (pack_item m q desired it (l_pack l)
                                                (l_counters l)))
                         (s_emitted (pack_item m q desired it (l_pack l)
                                               (l_counters l)))
                         (s_compressed (pack_item m q desired it (l_pack l)
                                                  (l_counters l)))
                         (s_item (pack_item m q desired it (l_pack l)
                                            (l_counters l)))])).
  { apply Forall_app. split; [assumption|].
    constructor; [apply step_visit_ok | constructor]. }
  refine (conj _ (conj _ (conj _ Hv'))); clear Hv';
    rewrite ?emitted_turns_snoc; cbn [v_emitted v_item];
    destruct (pack_item_result m q desired it (l_pack l) (l_counters l))
      as [He Ha Hp Hc _ | f text He Ha _ Hmsg _ _ Hc _ _];
    rewrite ?He, ?Hp, ?Hc, ?Hmsg, ?app_nil_r; try assumption.
  - rewrite Hm, map_app, <- app_assoc. reflexivity.
  - destruct f; cbn; lia.
  - rewrite length_app. destruct f; cbn; lia.
Qed.

Lemma loop_step_balanced (m : FocusManager) (q : str) (p0 : Pack)
      (desired : Fidelity) (pos : nat) (it : MemoryItem) (l : Loop) :
  token_len it = count (tc m) (content it) ->
  balanced m p0 l -> balanced m p0 (loop_step m q desired pos it l).
Proof.
  intros Hlen (Hb & Hpos & Hcost). unfold balanced, loop_step.
  cbn [l_pack l_counters l_trace].
  rewrite emitted_turns_snoc. cbn [v_emitted v_item].
  destruct (pack_item_result m q desired it (l_pack l) (l_counters l))
    as [He Ha Hp Hc _ | f text He Ha _ _ Hbl Hfit Hc _ Ht].
  - rewrite He, Hp, Hc, app_nil_r. now repeat split.
  - rewrite He, Hbl, Hc, map_app, total_cost_app. simpl.
    assert (Hk : match f with
                 | FULL => token_len it
                 | _ => count (tc m) text
                 end = count (tc m) text).
    { destruct f; try reflexivity.
      rewrite Hlen, Ht. cbn [text_of].
      destruct (pack_item_evolves m q desired it (l_pack l) (l_counters l))
        as [(_ & _ & Hcontent & _) _].
      now rewrite Hcontent. }
    rewrite Hk.
    repeat split.
    + destruct f; cbn; lia.
    + intros H0. specialize (Hpos H0). lia.
    + destruct f; cbn; lia.
Qed.

(** A store that only moves forward: updating a position with a later
    state of the object found there. *)
Lemma store_set_evolves (items store : list MemoryItem) (pos : nat)
      (it x : MemoryItem) :
  Forall2 evolves items store ->
  nth_error items pos = Some it -> evolves it x ->
  Forall2 evolves items (store_set pos x store).
Proof.
  intros H. revert pos.
  induction H as [|a b items store Hab H IH]; intros pos Hn Hx.
  - destruct pos; discriminate.
  - destruct pos as [|pos]; simpl in *.
    + inversion Hn; subst. now constructor.
    + constructor; [assumption | now apply IH].
Qed.

Lemma enumerate_nth (items : list MemoryItem) (k pos : nat)
      (it : MemoryItem) :
  In (pos, it) (combine (seq k (length items)) items) ->
  exists j, pos = (k + j)%nat /\ nth_error items j = Some it.
Proof.
  revert k. induction items as [|a items IH]; intros k H; simpl in H.
  - contradiction.
  - destruct H as [H|H].
    + inversion H; subst. exists 0%nat. split; [lia | reflexivity].
    + destruct (IH (S k) H) as (j & -> & Hj).
      exists (S j). split; [lia | exact Hj].
Qed.

Lemma sorted_by_id_nth (items : list MemoryItem) (pos : nat)
      (it : MemoryItem) :
  In (pos, it) (sorted_by_id items) -> nth_error items pos = Some it.
Proof.
  intros H. unfold sorted_by_id in H.
  eapply Permutation_in in H; [|apply stable_sort_perm].
  destruct (enumerate_nth items 0 pos it H) as (j & -> & Hj). exact Hj.
Qed.

(* ================================================================== *)
(** * [build_context] as a whole *)
(* ================================================================== *)

Lemma entry_pack_messages (m : FocusManager) (b : Z) (p : option str) :
  messages (entry_pack m b p) = preamble_message (tc m) p b.
Proof.
  unfold entry_pack, add_preamble, preamble_message, try_add.
  destruct p as [[|x s]|]; try reflexivity.
  cbn [budget_left messages].
  now destruct (count (tc m) (x :: s) <=? b)%Z.
Qed.

Lemma total_cost_single (counter : TokenCounter) (r t : str) :
  total_cost counter [(r, t)] = count counter t.
Proof. unfold total_cost. cbn [fold_right snd]. lia. Qed.

Lemma entry_pack_budget (m : FocusManager) (b : Z) (p : option str) :
  budget_left (entry_pack m b p)
  = (b - total_cost (tc m) (preamble_message (tc m) p b))%Z.
Proof.
  unfold entry_pack, add_preamble, preamble_message, try_add.
  cbn [budget_left messages].
  destruct p as [[|x s]|];
    try (change (total_cost (tc m) []) with 0%Z; cbn [budget_left]; lia).
  destruct (count (tc m) (x :: s) <=? b)%Z.
  - rewrite total_cost_single. reflexivity.
  - change (total_cost (tc m) []) with 0%Z. cbn [snd budget_left]. lia.
Qed.

Lemma entry_pack_nonneg (m : FocusManager) (b : Z) (p : option str) :
  (0 <= b)%Z ->
  (0 <= budget_left (entry_pack m b p) <= b)%Z.
Proof.
  intros Hb. rewrite entry_pack_budget.
  unfold preamble_message.
  destruct p as [[|x s]|];
    try (change (total_cost (tc m) []) with 0%Z; lia).
  destruct (count (tc m) (x :: s) <=? b)%Z eqn:E.
  - rewrite total_cost_single. apply Z.leb_le in E.
    pose proof (count_nonneg (tc m) (x :: s)). lia.
  - change (total_cost (tc m) []) with 0%Z. lia.
Qed.

(** [build_context] returns exactly when its packing loop does, and then
    it returns what the loop computed. *)
Lemma build_context_some (m : FocusManager) (q : str) (b : Z)
      (p : option str) (r : Run) :
  build_context m q b p = Some r ->
  exists l,
    pack_loop m q (plan_for m q)
              (sorted_by_id (map snd (scored_of m q)))
              (entry_loop m q b p) = Some l
    /\ r_messages r = messages (l_pack l)
    /\ r_trace r = l_trace l
    /\ r_self r = mkFocusManager (embedder m) (tc m) (compressor m) (cfg m)
                                 (l_store l) (_next_id m)
    /\ budget (r_stats r) = b
    /\ used (r_stats r) = used_tokens (l_counters l)
    /\ st_raw_tokens (r_stats r) = raw_tokens (l_counters l)
    /\ st_compressed_tokens (r_stats r) = compressed_tokens (l_counters l)
    /\ st_placeholder_tokens (r_stats r) = placeholder_tokens (l_counters l)
    /\ st_expanded_count (r_stats r) = expanded_count (l_counters l)
    /\ st_compressed_count (r_stats r) = compressed_count (l_counters l)
    /\ st_stub_count (r_stats r) = stub_count (l_counters l).
Proof.
  unfold build_context.
  fold (scored_of m q). fold (plan_for m q). fold (entry_pack m b p).
  fold (entry_loop m q b p).
  destruct (pack_loop m q (plan_for m q)
              (sorted_by_id (map snd (scored_of m q)))
              (entry_loop m q b p)) as [l|]; [|discriminate].
  destruct (planned_count (plan_for m q) FULL (scored_of m q));
    [|discriminate].
  destruct (planned_count (plan_for m q) COMPRESSED (scored_of m q));
    [|discriminate].
  destruct (planned_count (plan_for m q) PLACEHOLDER (scored_of m q));
    [|discriminate].
  intros H. inversion H; subst; clear H. exists l. cbn.
  repeat split; reflexivity.
Qed.

Lemma plan_for_defined (m : FocusManager) (q : str) (it : MemoryItem) :
  In it (map snd (scored_of m q)) -> plan_for m q (id it) <> None.
Proof.
  intros H. unfold plan_for, plan_loop. apply plan_loop_defined.
  right. rewrite <- (map_map snd id). now apply in_map.
Qed.

(** [build_context] always returns: no lookup in [desired_map] fails. *)
Theorem build_context_total (m : FocusManager) (q : str) (b : Z)
        (p : option str) :
  exists r, build_context m q b p = Some r.
Proof.
  unfold build_context.
  fold (scored_of m q). fold (plan_for m q). fold (entry_pack m b p).
  fold (entry_loop m q b p).
  destruct (pack_loop_total m q (plan_for m q)
              (sorted_by_id (map snd (scored_of m q)))
              (entry_loop m q b p)) as [l Hl].
  { intros pos it Hin. apply plan_for_defined.
    eapply sorted_by_id_members; eassumption. }
  rewrite Hl.
  assert (Hd : forall si, In si (scored_of m q) ->
                          plan_for m q (id (snd si)) <> None).
  { intros si Hin. apply plan_for_defined. now apply in_map. }
  destruct (planned_count_defined (plan_for m q) FULL _ Hd) as [k1 ->].
  destruct (planned_count_defined (plan_for m q) COMPRESSED _ Hd)
    as [k2 ->].
  destruct (planned_count_defined (plan_for m q) PLACEHOLDER _ Hd)
    as [k3 ->].
  eauto.
Qed.

Lemma entry_accounts (m : FocusManager) (q : str) (b : Z) (p : option str) :
  accounts m (entry_pack m b p) (entry_loop m q b p).
Proof.
  unfold accounts, entry_loop. cbn. rewrite app_nil_r.
  repeat split; constructor.
Qed.

Lemma entry_balanced (m : FocusManager) (q : str) (b : Z) (p : option str) :
  balanced m (entry_pack m b p) (entry_loop m q b p).
Proof.
  unfold balanced, entry_loop. cbn. repeat split; auto; lia.
Qed.

Lemma build_context_accounts (m : FocusManager) (q : str) (b : Z)
      (p : option str) (l : Loop) :
  pack_loop m q (plan_for m q) (sorted_by_id (map snd (scored_of m q)))
            (entry_loop m q b p) = Some l ->
  accounts m (entry_pack m b p) l.
Proof.
  apply pack_loop_preserves with (P := accounts m (entry_pack m b p)).
  - intros; now apply loop_step_accounts.
  - apply entry_accounts.
Qed.

Lemma scored_token_len (m : FocusManager) (q : str) (it : MemoryItem) :
  Forall (fun it => token_len it = count (tc m) (content it)) (_items m) ->
  In it (map snd (scored_of m q)) ->
  token_len it = count (tc m) (content it).
Proof.
  intros Hwf Hin.
  pose proof (score_loop_evolves m (encode (embedder m) q)
                (Z.of_nat (length (_items m))) 0 (_items m)) as Hev.
  fold (scored_of m q) in Hev.
  revert Hwf Hin. induction Hev as [|a b' l l' Hab _ IH]; intros Hwf Hin.
  - contradiction.
  - inversion Hwf; subst. destruct Hin as [<-|Hin]; [|now apply IH].
    destruct Hab as [(_ & _ & Hc & _ & Ht) _]. congruence.
Qed.

Lemma build_context_balanced (m : FocusManager) (q : str) (b : Z)
      (p : option str) (l : Loop) :
  Forall (fun it => token_len it = count (tc m) (content it)) (_items m) ->
  pack_loop m q (plan_for m q) (sorted_by_id (map snd (scored_of m q)))
            (entry_loop m q b p) = Some l ->
  balanced m (entry_pack m b p) l.
Proof.
  intros Hwf.
  apply pack_loop_preserves with (P := balanced m (entry_pack m b p)).
  - intros l0 pos it desired Hin _ Hb. apply loop_step_balanced; [|exact Hb].
    eapply scored_token_len; [exact Hwf|].
    eapply sorted_by_id_members; eassumption.
  - apply entry_balanced.
Qed.

(* ================================================================== *)
(** * The store across calls *)
(* ================================================================== *)

Lemma Forall2_evolves_trans (a b c : list MemoryItem) :
  Forall2 evolves a b -> Forall2 evolves b c -> Forall2 evolves a c.
Proof.
  intros H. revert c. induction H as [|x y a b Hxy _ IH]; intros c Hc;
    inversion Hc; subst; constructor.
  - eapply evolves_trans; eassumption.
  - now apply IH.
Qed.

Lemma Forall2_evolves_refl (a : list MemoryItem) : Forall2 evolves a a.
Proof. induction a; constructor; [apply evolves_refl | assumption]. Qed.

Lemma evolves_ids (a b : list MemoryItem) :
  Forall2 evolves a b -> map id a = map id b.
Proof.
  induction 1 as [|x y a b [(Hid & _) _] _ IH]; simpl; congruence.
Qed.

(** A call keeps every turn, in place, and only moves it forward. *)
Lemma build_context_store (m : FocusManager) (q : str) (b : Z)
      (p : option str) (r : Run) :
  build_context m q b p = Some r ->
  Forall2 evolves (_items m) (_items (r_self r))
  /\ tc (r_self r) = tc m /\ cfg (r_self r) = cfg m
  /\ compressor (r_self r) = compressor m
  /\ embedder (r_self r) = embedder m
  /\ _next_id (r_self r) = _next_id m.
Proof.
  intros H. destruct (build_context_some m q b p r H)
    as (l & Hl & _ & _ & Hself & _).
  rewrite Hself. cbn. repeat split.
  eapply Forall2_evolves_trans.
  - apply (score_loop_evolves m (encode (embedder m) q)
             (Z.of_nat (length (_items m))) 0 (_items m)).
  - fold (scored_of m q).
    revert Hl.
    apply pack_loop_preserves
      with (P := fun l => Forall2 evolves (map snd (scored_of m q))
                                  (l_store l)).
    + intros l0 pos it desired Hin _ Hs. unfold loop_step. cbn [l_store].
      eapply store_set_evolves; [exact Hs | |apply pack_item_evolves].
      now apply sorted_by_id_nth.
    + apply Forall2_evolves_refl.
Qed.

Lemma StronglySorted_snoc (l : list Z) (x : Z) :
  StronglySorted Z.lt l -> Forall (fun y => (y < x)%Z) l ->
  StronglySorted Z.lt (l ++ [x]).
Proof.
  induction 1 as [|y l Hl IH Hy]; intros Hx; simpl.
  - repeat constructor.
  - inversion Hx; subst. constructor; [now apply IH|].
    apply Forall_app. split; [assumption | now repeat constructor].
Qed.

Lemma well_formed_init (py_lower : str -> str) (e : Embedder)
      (t : TokenCounter) (c : option Compressor) (g : option FocusConfig) :
  well_formed (init py_lower e t c g).
Proof. repeat split; constructor. Qed.

Lemma well_formed_add (m : FocusManager) (now : R) (r c : str) :
  well_formed m -> well_formed (fst (add_message m now r c)).
Proof.
  intros (Hlen & Hids & Hnext). unfold well_formed, add_message.
  cbn [fst _items tc _next_id]. repeat split.
  - apply Forall_app. split; [assumption|]. now repeat constructor.
  - rewrite map_app. cbn. apply StronglySorted_snoc; [assumption|].
    now apply Forall_map.
  - apply Forall_app. split.
    + eapply Forall_impl; [|exact Hnext]. cbn. intros; lia.
    + repeat constructor. cbn. lia.
Qed.

Lemma well_formed_build (m : FocusManager) (q : str) (b : Z)
      (p : option str) (r : Run) :
  well_formed m -> build_context m q b p = Some r ->
  well_formed (r_self r).
Proof.
  intros (Hlen & Hids & Hnext) H.
  destruct (build_context_store m q b p r H)
    as (Hev & Htc & _ & _ & _ & Hn).
  unfold well_formed. rewrite Htc, Hn, <- (evolves_ids _ _ Hev).
  repeat split; [|assumption|].
  - clear Hids Hnext. induction Hev as [|x y a b' Hxy _ IH];
      constructor; inversion Hlen; subst.
    + destruct Hxy as [(_ & _ & Hc & _ & Ht) _]. congruence.
    + now apply IH.
  - clear Hids Hlen. induction Hev as [|x y a b' Hxy _ IH];
      constructor; inversion Hnext; subst.
    + destruct Hxy as [(Hi & _) _]. lia.
    + now apply IH.
Qed.

(** Every manager that the interface produces is well formed. *)
Lemma reachable_well_formed (m : FocusManager) :
  reachable m -> well_formed m.
Proof.
  induction 1.
  - apply well_formed_init.
  - now apply well_formed_add.
  - eapply well_formed_build; eassumption.
Qed.

(* ================================================================== *)
(** * The trace on a well-formed store *)
(* ================================================================== *)

Lemma store_set_middle (done rest : list MemoryItem) (x y : MemoryItem) :
  store_set (length done) y (done ++ x :: rest) = done ++ y :: rest.
Proof. induction done as [|a done IH]; simpl; [reflexivity | now rewrite IH]. Qed.

(** Visiting the store in store order: the trace lists the turns in that
    order and the store ends up holding what the visits left. *)
Lemma pack_loop_enumerate (m : FocusManager) (q : str) (d : dict)
      (its done : list MemoryItem) (l l' : Loop) :
  l_store l = done ++ its ->
  pack_loop m q d (combine (seq (length done) (length its)) its) l
  = Some l' ->
  exists visits,
    l_trace l' = l_trace l ++ visits
    /\ map v_item visits = its
    /\ l_store l' = done ++ map v_after visits
    /\ Forall (fun v => d (id (v_item v)) = Some (v_desired v)) visits.
Proof.
  revert done l. induction its as [|it its IH]; intros done l Hs Hrun;
    simpl in Hrun.
  - inversion Hrun; subst. exists []. rewrite !app_nil_r in *.
    repeat split; auto.
  - destruct (d (id it)) as [desired|] eqn:Hd; [|discriminate].
    specialize (IH (done ++ [s_item (pack_item m q desired it (l_pack l)
                                               (l_counters l))])
                   (loop_step m q desired (length done) it l)).
    destruct IH as (visits & Ht & Hi & Hst & Hall).
    + unfold loop_step. cbn [l_store]. rewrite Hs, store_set_middle.
      now rewrite <- app_assoc.
    + rewrite length_app. simpl length.
      replace (length done + 1)%nat with (S (length done)) by lia.
      exact Hrun.
    + eexists (_ :: visits). unfold loop_step in Ht. cbn [l_trace] in Ht.
      rewrite <- app_assoc in Ht. simpl in Ht.
      split; [exact Ht|]. cbn [map v_item v_after].
      split; [now rewrite Hi|].
      split; [now rewrite Hst, <- app_assoc|].
      constructor; [exact Hd | exact Hall].
Qed.

Lemma visit_ok_never_upgraded (m : FocusManager) (v : Visit) :
  visit_ok m v -> never_upgraded v.
Proof.
  unfold visit_ok, never_upgraded.
  destruct (v_achieved v) as [f|]; destruct (v_desired v);
    try destruct f; cbn; intuition discriminate.
Qed.

Lemma visit_ok_recorded (m : FocusManager) (v : Visit) :
  visit_ok m v -> recorded_as v (v_after v).
Proof.
  unfold visit_ok, recorded_as.
  destruct (v_achieved v); intuition.
Qed.

(** On a well-formed manager the visits are the turns, in store order. *)
Lemma build_context_trace (m : FocusManager) (q : str) (b : Z)
      (p : option str) (r : Run) :
  well_formed m -> build_context m q b p = Some r ->
  map v_item (r_trace r) = map snd (scored_of m q)
  /\ _items (r_self r) = map v_after (r_trace r)
  /\ Forall (fun v => plan_for m q (id (v_item v)) = Some (v_desired v))
            (r_trace r)
  /\ Forall (visit_ok m) (r_trace r).
Proof.
  intros (_ & Hids & _) H.
  destruct (build_context_some m q b p r H)
    as (l & Hl & _ & Ht & Hself & _).
  pose proof (build_context_accounts m q b p l Hl) as (_ & _ & _ & Hok).
  assert (Hs : StronglySorted Z.lt (map id (map snd (scored_of m q)))).
  { rewrite <- (evolves_ids (_items m) (map snd (scored_of m q)));
      [assumption|].
    apply score_loop_evolves. }
  rewrite (sorted_by_id_ordered _ Hs) in Hl.
  destruct (pack_loop_enumerate m q (plan_for m q)
              (map snd (scored_of m q)) [] (entry_loop m q b p) l
              eq_refl Hl) as (visits & Hv & Hi & Hst & Hall).
  cbn in Hv, Hst. rewrite Hself, Ht, Hv. cbn [_items].
  rewrite Hv in Hok. auto.
Qed.

Lemma emitted_ids_within (P : Z -> Prop) (trace : list Visit) :
  Forall P (map (fun v => id (v_item v)) trace) ->
  Forall P (map fst (emitted_turns trace)).
Proof.
  induction trace as [|v trace IH]; intros H; simpl; [constructor|].
  inversion H; subst. rewrite map_app. apply Forall_app. split.
  - destruct (v_emitted v); repeat constructor. assumption.
  - now apply IH.
Qed.

Lemma emitted_ids_sorted (trace : list Visit) :
  StronglySorted Z.lt (map (fun v => id (v_item v)) trace) ->
  StronglySorted Z.lt (map fst (emitted_turns trace)).
Proof.
  induction trace as [|v trace IH]; intros H; simpl; [constructor|].
  inversion H as [|? ? Hs Hall]; subst.
  destruct (v_emitted v); simpl; [|now apply IH].
  constructor; [now apply IH | now apply emitted_ids_within].
Qed.

Lemma demo_manager_reachable : reachable Fixtures.demo_manager.
Proof.
  unfold Fixtures.demo_manager. apply reach_add, reach_add, reach_init.
Qed.

(* ================================================================== *)
(** * Properties of [build_context] *)
(* ================================================================== *)

(** C1: for a manager produced by the interface, any query, any positive
    budget and any optional preamble, the call returns and
    [stats['used'] <= stats['budget']]. *)
Theorem used_within_budget (m : FocusManager) (q : str) (b : Z)
        (p : option str) :
  reachable m -> (0 < b)%Z ->
  exists r, build_context m q b p = Some r
            /\ (used (r_stats r) <= budget (r_stats r))%Z.
Proof.
  intros Hr Hb. destruct (build_context_total m q b p) as [r H].
  exists r. split; [exact H|].
  destruct (build_context_some m q b p r H)
    as (l & Hl & _ & _ & _ & Hbud & Hused & _).
  destruct (reachable_well_formed m Hr) as (Hlen & _).
  destruct (build_context_balanced m q b p l Hlen Hl) as (Hsum & Hpos & _).
  destruct (entry_pack_nonneg m b p) as [H0 H1]; [lia|].
  specialize (Hpos H0). rewrite Hbud, Hused. lia.
Qed.

(** C1, witness: a call on [demo_manager] with budget 220. *)
Lemma used_within_budget_witness :
  reachable Fixtures.demo_manager /\ (0 < 220)%Z
  /\ exists r,
      build_context Fixtures.demo_manager (lit "deep dish in Chicago") 220
                    (Some (lit "Stay concise. Use bullets.")) = Some r
      /\ (used (r_stats r) <= budget (r_stats r))%Z.
Proof.
  split; [exact demo_manager_reachable|]. split; [lia|].
  apply used_within_budget; [exact demo_manager_reachable | lia].
Defined.

(** The messages of a call are the preamble message, if it was emitted,
    followed by the turn messages; the turn messages cost [used]. *)
Lemma messages_cost_split (m : FocusManager) (q : str) (b : Z)
      (p : option str) (r : Run) :
  well_formed m -> build_context m q b p = Some r ->
  r_messages r
  = preamble_message (tc m) p b ++ map snd (emitted_turns (r_trace r))
  /\ total_cost (tc m) (map snd (emitted_turns (r_trace r)))
     = used (r_stats r)
  /\ total_cost (tc m) (r_messages r)
     = (used (r_stats r)
        + total_cost (tc m) (preamble_message (tc m) p b))%Z.
Proof.
  intros (Hlen & _) H.
  destruct (build_context_some m q b p r H)
    as (l & Hl & Hmsg & Ht & _ & _ & Hused & _).
  destruct (build_context_accounts m q b p l Hl) as (Hm & _).
  destruct (build_context_balanced m q b p l Hlen Hl) as (_ & _ & Hcost).
  rewrite entry_pack_messages in Hm.
  rewrite Hmsg, Ht, Hused, Hm, total_cost_app, Hcost.
  repeat split; lia.
Qed.

(** C2, as amended: the token costs of the emitted turn messages sum to
    [stats['used']]; the system-preamble message, when emitted, comes on
    top of it, so all emitted messages together cost [used] plus the cost
    of the preamble. *)
Theorem turn_costs_equal_used (m : FocusManager) (q : str) (b : Z)
        (p : option str) :
  reachable m ->
  exists r, build_context m q b p = Some r
    /\ r_messages r
       = preamble_message (tc m) p b ++ map snd (emitted_turns (r_trace r))
    /\ total_cost (tc m) (map snd (emitted_turns (r_trace r)))
       = used (r_stats r)
    /\ total_cost (tc m) (r_messages r)
       = (used (r_stats r)
          + total_cost (tc m) (preamble_message (tc m) p b))%Z.
Proof.
  intros Hr. destruct (build_context_total m q b p) as [r H].
  exists r. split; [exact H|].
  apply (messages_cost_split m q b p r);
    [now apply reachable_well_formed | exact H].
Qed.

(** C2, witness: a call on [demo_manager] with a preamble. *)
Lemma turn_costs_equal_used_witness :
  reachable Fixtures.demo_manager
  /\ exists r,
      build_context Fixtures.demo_manager (lit "deep dish in Chicago") 220
                    (Some (lit "Stay concise. Use bullets.")) = Some r
      /\ r_messages r
         = preamble_message (tc Fixtures.demo_manager)
                            (Some (lit "Stay concise. Use bullets.")) 220
             ++ map snd (emitted_turns (r_trace r))
      /\ total_cost (tc Fixtures.demo_manager)
                    (map snd (emitted_turns (r_trace r)))
         = used (r_stats r)
      /\ total_cost (tc Fixtures.demo_manager) (r_messages r)
         = (used (r_stats r)
            + total_cost (tc Fixtures.demo_manager)
                (preamble_message (tc Fixtures.demo_manager)
                   (Some (lit "Stay concise. Use bullets.")) 220))%Z.
Proof.
  split; [exact demo_manager_reachable|].
  apply turn_costs_equal_used. exact demo_manager_reachable.
Defined.

(** C9: [used] is the sum of the three token counters, and the three
    message counters add up to the number of emitted turn messages: the
    length of the output, minus one when a preamble message was
    emitted. *)
Theorem stats_add_up (m : FocusManager) (q : str) (b : Z) (p : option str) :
  exists r, build_context m q b p = Some r
    /\ used (r_stats r)
       = (st_raw_tokens (r_stats r) + st_compressed_tokens (r_stats r)
          + st_placeholder_tokens (r_stats r))%Z
    /\ (st_expanded_count (r_stats r) + st_compressed_count (r_stats r)
        + st_stub_count (r_stats r))%Z
       = Z.of_nat (length (emitted_turns (r_trace r)))
    /\ r_messages r
       = preamble_message (tc m) p b ++ map snd (emitted_turns (r_trace r))
    /\ (st_expanded_count (r_stats r) + st_compressed_count (r_stats r)
        + st_stub_count (r_stats r))%Z
       = (Z.of_nat (length (r_messages r))
          - match preamble_message (tc m) p b with
            | [] => 0
            | _ :: _ => 1
            end)%Z.
Proof.
  destruct (build_context_total m q b p) as [r H].
  exists r. split; [exact H|].
  destruct (build_context_some m q b p r H)
    as (l & Hl & Hmsg & Ht & _ & _ & Hu & Hr & Hc & Hp & He & Hcc & Hs).
  destruct (build_context_accounts m q b p l Hl) as (Hm & Hsum & Hn & _).
  rewrite entry_pack_messages in Hm.
  rewrite Hmsg, Ht, Hu, Hr, Hc, Hp, He, Hcc, Hs, Hm, Hn.
  repeat split; try assumption.
  rewrite length_app, length_map.
  unfold preamble_message.
  destruct p as [[|x s]|]; cbn [length]; try lia.
  destruct (count (tc m) (x :: s) <=? b)%Z; cbn [length]; lia.
Qed.

(** C10: an empty preamble is treated as an absent one; no preamble
    message is emitted for it. *)
Theorem empty_preamble_is_absent (m : FocusManager) (q : str) (b : Z) :
  build_context m q b (Some []) = build_context m q b None
  /\ preamble_message (tc m) (Some []) b = []
  /\ count (tc m) [] = 0%Z.
Proof. repeat split. Qed.

Lemma Forall2_member_r (A B : Type) (R : A -> B -> Prop) (a : list A)
      (b : list B) (y : B) :
  Forall2 R a b -> In y b -> exists x, In x a /\ R x y.
Proof.
  induction 1 as [|x0 y0 a b Hxy _ IH]; intros Hin; [contradiction|].
  destruct Hin as [<-|Hin].
  - exists x0. split; [now left | assumption].
  - destruct (IH Hin) as (x & Hx & HR). exists x. split; [now right|auto].
Qed.

Lemma trace_planned (d : dict) (trace : list Visit) :
  forall turns,
    Forall2 evolves turns (map v_item trace) ->
    Forall (fun v => d (id (v_item v)) = Some (v_desired v)) trace ->
    Forall2 (planned_as d) turns trace.
Proof.
  induction trace as [|v trace IH]; intros turns H2 Hd; simpl in H2;
    inversion H2 as [|it ? turns' ? Hev Hrest]; subst; constructor.
  - inversion Hd; subst. destruct Hev as [(Hid & _) _].
    split; [now symmetry | now rewrite Hid].
  - inversion Hd; subst. now apply IH.
Qed.

Lemma trace_recorded (m : FocusManager) (trace : list Visit) :
  Forall (visit_ok m) trace ->
  Forall2 recorded_as trace (map v_after trace).
Proof.
  induction 1 as [|v trace Hv _ IH]; simpl; constructor;
    [eapply visit_ok_recorded; eassumption | assumption].
Qed.

(** C3: every turn is visited once; its planned fidelity is the one of
    [desired_map]; the fidelity achieved and recorded in
    [compression_state] is never more expensive than the planned one
    (planned FULL: FULL, COMPRESSED, PLACEHOLDER or absent; planned
    COMPRESSED: COMPRESSED, PLACEHOLDER or absent; planned PLACEHOLDER:
    PLACEHOLDER or absent). *)
Theorem cascade_never_upgrades (m : FocusManager) (q : str) (b : Z)
        (p : option str) :
  reachable m ->
  exists r, build_context m q b p = Some r
    /\ Forall2 (planned_as (plan_for m q)) (_items m) (r_trace r)
    /\ Forall never_upgraded (r_trace r)
    /\ Forall2 recorded_as (r_trace r) (_items (r_self r)).
Proof.
  intros Hr. destruct (build_context_total m q b p) as [r H].
  exists r. split; [exact H|].
  destruct (build_context_trace m q b p r (reachable_well_formed m Hr) H)
    as (Hitems & Hafter & Hplan & Hok).
  repeat split.
  - apply trace_planned; [|exact Hplan].
    rewrite Hitems. apply score_loop_evolves.
  - eapply Forall_impl; [|exact Hok].
    intros v. apply visit_ok_never_upgraded.
  - rewrite Hafter. eapply trace_recorded; exact Hok.
Qed.

(** C3, witness: a call on [demo_manager] under a tight budget. *)
Lemma cascade_never_upgrades_witness :
  reachable Fixtures.demo_manager
  /\ exists r,
      build_context Fixtures.demo_manager (lit "deep dish in Chicago") 8
                    None = Some r
      /\ Forall2 (planned_as (plan_for Fixtures.demo_manager
                                       (lit "deep dish in Chicago")))
                 (_items Fixtures.demo_manager) (r_trace r)
      /\ Forall never_upgraded (r_trace r)
      /\ Forall2 recorded_as (r_trace r) (_items (r_self r)).
Proof.
  split; [exact demo_manager_reachable|].
  apply cascade_never_upgrades. exact demo_manager_reachable.
Defined.

(** C4: the output is the preamble message, when one is emitted,
    followed by the turn messages; each turn message carries the role of
    its turn, and the ids of the turns of consecutive messages are
    strictly ascending. *)
Theorem chronological_emission (m : FocusManager) (q : str) (b : Z)
        (p : option str) :
  reachable m ->
  exists r, build_context m q b p = Some r
    /\ r_messages r
       = preamble_message (tc m) p b ++ map snd (emitted_turns (r_trace r))
    /\ StronglySorted Z.lt (map fst (emitted_turns (r_trace r)))
    /\ Forall (fun e => exists it, In it (_items m) /\ id it = fst e
                                   /\ role it = fst (snd e))
              (emitted_turns (r_trace r)).
Proof.
  intros Hr. destruct (build_context_total m q b p) as [r H].
  exists r. split; [exact H|].
  pose proof (reachable_well_formed m Hr) as Hwf.
  destruct (messages_cost_split m q b p r Hwf H) as (Hmsg & _).
  destruct (build_context_trace m q b p r Hwf H)
    as (Hitems & _ & _ & Hok).
  pose proof (score_loop_evolves m (encode (embedder m) q)
                (Z.of_nat (length (_items m))) 0 (_items m)) as Hev.
  fold (scored_of m q) in Hev. rewrite <- Hitems in Hev.
  repeat split; [exact Hmsg | |].
  - apply emitted_ids_sorted.
    rewrite <- (map_map v_item id), <- (evolves_ids _ _ Hev).
    apply Hwf.
  - clear Hmsg Hitems. revert Hev Hok.
    generalize (_items m) as turns.
    induction (r_trace r) as [|v trace IH]; intros turns Hev Hok;
      simpl; [constructor|].
    inversion Hev as [|it ? turns' ? Hiv Hrest]; subst.
    inversion Hok as [|? ? Hv Hok']; subst.
    apply Forall_app. split.
    + unfold visit_ok in Hv.
      destruct (v_achieved v) as [f|].
      * destruct Hv as (_ & _ & ->). repeat constructor.
        exists it. destruct Hiv as [(Hid & Hrole & _) _].
        cbn. repeat split; [now left | assumption | assumption].
      * destruct Hv as (-> & _). constructor.
    + eapply Forall_impl; [|apply (IH turns' Hrest Hok')].
      intros e (it' & Hin & He). exists it'. split; [now right | exact He].
Qed.

(** C4, witness: a call on [demo_manager] with a preamble. *)
Lemma chronological_emission_witness :
  reachable Fixtures.demo_manager
  /\ exists r,
      build_context Fixtures.demo_manager (lit "deep dish in Chicago") 220
                    (Some (lit "Stay concise. Use bullets.")) = Some r
      /\ r_messages r
         = preamble_message (tc Fixtures.demo_manager)
                            (Some (lit "Stay concise. Use bullets.")) 220
             ++ map snd (emitted_turns (r_trace r))
      /\ StronglySorted Z.lt (map fst (emitted_turns (r_trace r)))
      /\ Forall (fun e => exists it,
                     In it (_items Fixtures.demo_manager) /\ id it = fst e
                     /\ role it = fst (snd e))
                (emitted_turns (r_trace r)).
Proof.
  split; [exact demo_manager_reachable|].
  apply chronological_emission. exact demo_manager_reachable.
Defined.

(* ================================================================== *)
(** * Scores *)
(* ================================================================== *)

Lemma score_loop_nth (m : FocusManager) (q_emb : list R) (n : Z)
      (turns : list MemoryItem) :
  forall (idx : Z) (p : nat) (it : MemoryItem),
    nth_error turns p = Some it ->
    nth_error (score_loop m q_emb n idx turns) p
    = Some (score_item m q_emb n (idx + Z.of_nat p) it).
Proof.
  induction turns as [|a turns IH]; intros idx p it Hn.
  - destruct p; discriminate.
  - destruct p as [|p]; simpl in *.
    + inversion Hn; subst. now rewrite Z.add_0_r.
    + rewrite (IH (idx + 1)%Z p it Hn). do 2 f_equal. lia.
Qed.

Lemma recency_weight_now (c : FocusConfig) : recency_weight c 0 = 1%R.
Proof.
  unfold recency_weight. cbv zeta.
  replace (0 / IZR (Z.max 1 (recency_half_life c)))%R with 0%R
    by (unfold Rdiv; now rewrite Rmult_0_l).
  apply Rpower_O. lra.
Qed.

Lemma blend_now (sim : R) : blend sim 1 = Rmax 0 sim.
Proof. unfold blend. lra. Qed.

(** C5: the turn at zero-based position [p] of [n] stored turns is scored
    [max(0, similarity) * (0.25 + 0.75 * 0.5 ^ (turnsAgo / max(1,
    recencyHalfLife)))] with [turnsAgo = (n - 1) - p], and that score is
    stored in [last_score]; for the most recent turn the recency weight is
    1 and the score is [max(0, similarity)]. *)
Theorem score_formula (m : FocusManager) (q : str) (p : nat)
        (it : MemoryItem) :
  nth_error (_items m) p = Some it ->
  let n := Z.of_nat (length (_items m)) in
  let similarity :=
    cosine (encode (embedder m) q) (ensure_embedding (embedder m) it) in
  let turns_ago := ((n - 1) - Z.of_nat p)%Z in
  exists score it',
    nth_error (scored_of m q) p = Some (score, it')
    /\ last_score it' = score
    /\ score
       = (Rmax 0 similarity
          * (0.25 + 0.75
                    * Rpower 0.5
                        (IZR turns_ago
                         / IZR (Z.max 1 (recency_half_life (cfg m))))))%R
    /\ (S p = length (_items m) ->
        turns_ago = 0%Z /\ recency_weight (cfg m) turns_ago = 1%R
        /\ score = Rmax 0 similarity).
Proof.
  intros Hn n similarity turns_ago.
  pose proof (score_loop_nth m (encode (embedder m) q) n (_items m) 0 p it
                Hn) as Hs.
  fold (scored_of m q) in Hs. rewrite Z.add_0_l in Hs.
  eexists _, _. split; [exact Hs|].
  split; [reflexivity|]. split; [reflexivity|].
  intros Hlast.
  assert (H0 : turns_ago = 0%Z) by (unfold turns_ago, n; lia).
  split; [exact H0|]. fold turns_ago. rewrite H0.
  split; [apply recency_weight_now|].
  rewrite recency_weight_now. apply blend_now.
Qed.

(** C5, witness: the most recent turn of [demo_manager]. *)
Lemma score_formula_witness :
  nth_error (_items Fixtures.demo_manager) 1
  = Some (mkMemoryItem 2 (lit "assistant")
            (lit "river tour and deep dish pizza") 1%R 6
            (Some [1%R; 0%R]) FULL None 0%R)
  /\ exists score it',
      nth_error (scored_of Fixtures.demo_manager
                           (lit "deep dish in Chicago")) 1
      = Some (score, it')
      /\ last_score it' = score
      /\ score = (Rmax 0 (cosine [1%R; 0%R] [1%R; 0%R])
                  * (0.25 + 0.75 * Rpower 0.5 (IZR (2 - 1 - 1) / IZR 12)))%R
      /\ (2%nat = 2%nat ->
          (2 - 1 - 1)%Z = 0%Z
          /\ recency_weight (cfg Fixtures.demo_manager) (2 - 1 - 1) = 1%R
          /\ score = Rmax 0 (cosine [1%R; 0%R] [1%R; 0%R])).
Proof.
  split; [reflexivity|].
  exact (score_formula Fixtures.demo_manager (lit "deep dish in Chicago") 1
           (mkMemoryItem 2 (lit "assistant")
              (lit "river tour and deep dish pizza") 1%R 6
              (Some [1%R; 0%R]) FULL None 0%R) eq_refl).
Defined.

(* ================================================================== *)
(** * Configuration *)
(* ================================================================== *)

Lemma Rgeb_true (a b : R) : Rgeb a b = true <-> (a >= b)%R.
Proof. unfold Rgeb. destruct (Rge_dec a b); split; auto; discriminate. Qed.

Lemma Rgeb_false (a b : R) : Rgeb a b = false <-> (a < b)%R.
Proof.
  unfold Rgeb. destruct (Rge_dec a b); split; auto; try discriminate.
  - intros; lra.
  - intros _. lra.
Qed.

Lemma plan_inverted (g : FocusConfig) (score : R) :
  (high_threshold g <= mid_threshold g)%R -> plan_of g score <> COMPRESSED.
Proof.
  intros Hg. unfold plan_of.
  destruct (Rgeb score (high_threshold g)) eqn:Eh; [discriminate|].
  destruct (Rgeb score (mid_threshold g)) eqn:Em; [|discriminate].
  apply Rgeb_false in Eh. apply Rgeb_true in Em. lra.
Qed.

(** C8, as stated, fails: the constructor accepts a configuration whose
    thresholds are the wrong way round and stores it as it is. *)
Lemma inverted_config_accepted :
  cfg (init Fixtures.ascii_lower Fixtures.unit_embedder whitespace_counter
            None (Some Fixtures.inverted_config))
  = Fixtures.inverted_config
  /\ (high_threshold Fixtures.inverted_config
      <= mid_threshold Fixtures.inverted_config)%R
  /\ ~ (high_threshold
          (cfg (init Fixtures.ascii_lower Fixtures.unit_embedder
                     whitespace_counter None
                     (Some Fixtures.inverted_config)))
        > mid_threshold
            (cfg (init Fixtures.ascii_lower Fixtures.unit_embedder
                       whitespace_counter None
                       (Some Fixtures.inverted_config))))%R.
Proof.
  split; [reflexivity|].
  unfold Fixtures.inverted_config. cbn. split; lra.
Qed.

(** C8, as amended: the constructor does not validate its configuration.
    A configuration with [high_threshold <= mid_threshold] is stored
    unchanged, calls on the manager return normally, and the planner then
    never plans COMPRESSED. *)
Theorem config_not_validated (py_lower : str -> str) (e : Embedder)
        (t : TokenCounter) (c : option Compressor) (g : FocusConfig) :
  (high_threshold g <= mid_threshold g)%R ->
  cfg (init py_lower e t c (Some g)) = g
  /\ (forall q b p,
         exists r, build_context (init py_lower e t c (Some g)) q b p
                   = Some r)
  /\ (forall score,
         plan_of (cfg (init py_lower e t c (Some g))) score <> COMPRESSED).
Proof.
  intros Hg. split; [reflexivity|]. split.
  - intros. apply build_context_total.
  - intros score. now apply plan_inverted.
Qed.

(** C8, witness: [inverted_config]. *)
Lemma config_not_validated_witness :
  (high_threshold Fixtures.inverted_config
   <= mid_threshold Fixtures.inverted_config)%R
  /\ cfg (init Fixtures.ascii_lower Fixtures.unit_embedder
               whitespace_counter None (Some Fixtures.inverted_config))
     = Fixtures.inverted_config
  /\ (forall q b p,
         exists r,
           build_context
             (init Fixtures.ascii_lower Fixtures.unit_embedder
                   whitespace_counter None (Some Fixtures.inverted_config))
             q b p = Some r)
  /\ (forall score,
         plan_of
           (cfg (init Fixtures.ascii_lower Fixtures.unit_embedder
                      whitespace_counter None
                      (Some Fixtures.inverted_config))) score
         <> COMPRESSED).
Proof.
  assert (H : (high_threshold Fixtures.inverted_config
               <= mid_threshold Fixtures.inverted_config)%R)
    by (unfold Fixtures.inverted_config; cbn; lra).
  split; [exact H|].
  exact (config_not_validated Fixtures.ascii_lower Fixtures.unit_embedder
           whitespace_counter None Fixtures.inverted_config H).
Defined.

(* ================================================================== *)
(** * Calls on a store of one turn *)
(* ================================================================== *)

(** With one stored turn the loop is one iteration, at the fidelity that
    the score of the turn plans. *)
Lemma pack_loop_single (m : FocusManager) (q : str) (b : Z)
      (p : option str) (it : MemoryItem) :
  _items m = [it] ->
  let si := score_item m (encode (embedder m) q) 1 0 it in
  scored_of m q = [si]
  /\ pack_loop m q (plan_for m q) (sorted_by_id (map snd (scored_of m q)))
               (entry_loop m q b p)
     = Some (loop_step m q (plan_of (cfg m) (fst si)) 0 (snd si)
                       (entry_loop m q b p)).
Proof.
  intros Hit si.
  assert (Hs : scored_of m q = [si]).
  { unfold scored_of. rewrite Hit. reflexivity. }
  split; [exact Hs|].
  unfold plan_for. rewrite Hs.
  unfold sorted_by_id, plan_loop. cbn [map length seq combine stable_sort
    fold_right insert_sorted fold_left pack_loop snd fst].
  unfold dict_set at 1. rewrite Z.eqb_refl. reflexivity.
Qed.

Lemma build_context_single (m : FocusManager) (q : str) (b : Z)
      (p : option str) (it : MemoryItem) :
  _items m = [it] ->
  let si := score_item m (encode (embedder m) q) 1 0 it in
  let s := pack_item m q (plan_of (cfg m) (fst si)) (snd si)
                     (entry_pack m b p) zero_counters in
  exists r,
    build_context m q b p = Some r
    /\ r_messages r = messages (s_pack s)
    /\ used (r_stats r) = used_tokens (s_counters s)
    /\ r_self r = mkFocusManager (embedder m) (tc m) (compressor m) (cfg m)
                                 [s_item s] (_next_id m)
    /\ r_trace r = [mkVisit (snd si) (plan_of (cfg m) (fst si))
                            (s_achieved s) (s_emitted s) (s_compressed s)
                            (s_item s)].
Proof.
  intros Hit si s.
  destruct (build_context_total m q b p) as [r H]. exists r.
  split; [exact H|].
  destruct (build_context_some m q b p r H)
    as (l & Hl & Hmsg & Ht & Hself & _ & Hused & _).
  destruct (pack_loop_single m q b p it Hit) as [Hs Hone].
  cbv zeta in Hs, Hone. fold si in Hs, Hone.
  assert (El : l = loop_step m q (plan_of (cfg m) (fst si)) 0 (snd si)
                            (entry_loop m q b p)) by congruence.
  rewrite Hmsg, Hused, Hself, Ht, El.
  unfold loop_step, entry_loop. rewrite Hs. repeat split.
Qed.

Lemma cosine_aligned : cosine [1%R; 0%R] [1%R; 0%R] = 1%R.
Proof. unfold cosine. simpl. lra. Qed.

Lemma cosine_blank : cosine [1%R; 0%R] [0%R; 0%R] = 0%R.
Proof. unfold cosine. simpl. lra. Qed.

Lemma plan_full (g : FocusConfig) (score : R) :
  (score >= high_threshold g)%R -> plan_of g score = FULL.
Proof.
  intros H. unfold plan_of. apply Rgeb_true in H. now rewrite H.
Qed.

Lemma plan_compressed (g : FocusConfig) (score : R) :
  (score < high_threshold g)%R -> (score >= mid_threshold g)%R ->
  plan_of g score = COMPRESSED.
Proof.
  intros H1 H2. unfold plan_of.
  apply Rgeb_false in H1. apply Rgeb_true in H2. now rewrite H1, H2.
Qed.

(** C2, as stated, fails: with one stored turn and a preamble that fits,
    both messages are emitted and cost 4 tokens, while [used] is 2. *)
Lemma preamble_not_in_used :
  exists r,
    build_context Fixtures.solo_manager (lit "hello") 10
                  (Some (lit "Stay concise.")) = Some r
    /\ r_messages r = [(lit "system", lit "Stay concise.");
                       (lit "user", lit "hello there")]
    /\ used (r_stats r) = 2%Z
    /\ total_cost (tc Fixtures.solo_manager) (r_messages r) = 4%Z
    /\ total_cost (tc Fixtures.solo_manager) (r_messages r)
       <> used (r_stats r).
Proof.
  destruct (build_context_single Fixtures.solo_manager (lit "hello") 10
              (Some (lit "Stay concise.")) Fixtures.solo_turn eq_refl)
    as (r & H & Hm & Hu & _).
  cbv zeta in Hm, Hu.
  assert (Hp : plan_of (cfg Fixtures.solo_manager)
                 (fst (score_item Fixtures.solo_manager
                         (encode (embedder Fixtures.solo_manager)
                                 (lit "hello")) 1 0 Fixtures.solo_turn))
               = FULL).
  { apply plan_full.
    change (blend (cosine [1%R; 0%R] [1%R; 0%R])
                  (recency_weight default_config 0) >= 0.55)%R.
    rewrite recency_weight_now, blend_now, cosine_aligned.
    rewrite Rmax_right; lra. }
  rewrite Hp in Hm, Hu.
  exists r. split; [exact H|].
  assert (Em : r_messages r = [(lit "system", lit "Stay concise.");
                               (lit "user", lit "hello there")])
    by (rewrite Hm; reflexivity).
  assert (Eu : used (r_stats r) = 2%Z) by (rewrite Hu; reflexivity).
  rewrite Em, Eu. repeat split. discriminate.
Qed.

(* ================================================================== *)
(** * The memoized compressed text *)
(* ================================================================== *)

Lemma heuristic_compress_fits (py_lower : str -> str)
      (counter : TokenCounter) (text : str) (target : Z)
      (hint : option str) :
  (count counter text <= target)%Z ->
  heuristic_compress py_lower counter text target hint = text.
Proof.
  intros H. unfold heuristic_compress.
  apply Z.leb_le in H. now rewrite H.
Qed.

(** A memo that is absent or is the empty string is falsy: the compressor
    is called, and its result is stored. *)
Lemma try_compressed_recomputes (m : FocusManager) (q : str)
      (it : MemoryItem) (p : Pack) (c : Counters) :
  compressed_text it = None \/ compressed_text it = Some [] ->
  s_compressed (try_compressed m q it p c) = true
  /\ compressed_text (s_item (try_compressed m q it p c))
     = Some (compress_item m q it).
Proof.
  intros H. unfold try_compressed, compressed_or_compress.
  assert (E : match compressed_text it with
              | Some (x :: s) => (x :: s, false)
              | _ => (compress_item m q it, true)
              end = (compress_item m q it, true))
    by (destruct H as [-> | ->]; reflexivity).
  rewrite E. unfold try_stub, try_add.
  repeat match goal with
         | |- context [if ?b then _ else _] => destruct b
         end; split; reflexivity.
Qed.

(** A non-empty memo is reused: a call on a manager produced by the
    interface does not call the compressor for that turn and leaves the
    memo as it is. *)
Lemma memo_reused (m : FocusManager) (q : str) (b : Z) (p : option str)
      (k : nat) (it : MemoryItem) (x : N) (s : str) :
  reachable m -> nth_error (_items m) k = Some it ->
  compressed_text it = Some (x :: s) ->
  exists r it',
    build_context m q b p = Some r
    /\ ~ In (id it) (compressor_calls (r_trace r))
    /\ nth_error (_items (r_self r)) k = Some it'
    /\ id it' = id it /\ compressed_text it' = Some (x :: s).
Proof.
  intros Hr Hk Hmemo.
  destruct (build_context_total m q b p) as [r H].
  pose proof (reachable_well_formed m Hr) as Hwf.
  destruct (build_context_store m q b p r H) as (Hev & _).
  destruct (build_context_trace m q b p r Hwf H) as (Hitems & _ & _ & _).
  assert (Hit' : exists it', nth_error (_items (r_self r)) k = Some it'
                             /\ evolves it it').
  { clear - Hev Hk. revert k Hk.
    induction Hev as [|a b' l l' Hab _ IH]; intros k Hk.
    - destruct k; discriminate.
    - destruct k as [|k]; simpl in *.
      + inversion Hk; subst. eauto.
      + now apply IH. }
  destruct Hit' as (it' & Hk' & [(Hid & _) Hkeep]).
  exists r, it'. split; [exact H|].
  split; [|split; [exact Hk'|split; [now symmetry | now apply Hkeep]]].
  (* every visit of a turn with this id finds the memo *)
  destruct (build_context_some m q b p r H) as (l & Hl & _ & Ht & _).
  assert (Hcalls : Forall (fun v => v_compressed v = true ->
                                    match compressed_text (v_item v) with
                                    | Some (_ :: _) => False
                                    | _ => True
                                    end) (r_trace r)).
  { rewrite Ht. revert Hl.
    apply pack_loop_preserves
      with (P := fun l => Forall (fun v => v_compressed v = true ->
                                   match compressed_text (v_item v) with
                                   | Some (_ :: _) => False
                                   | _ => True
                                   end) (l_trace l)).
    - intros l0 pos it0 desired _ _ Hall. unfold loop_step.
      cbn [l_trace]. apply Forall_app. split; [exact Hall|].
      repeat constructor. cbn [v_compressed v_item].
      destruct (compressed_text it0) as [[|y t]|] eqn:E; auto.
      now rewrite (pack_item_memo m q desired it0 (l_pack l0)
                     (l_counters l0) y t E).
    - constructor. }
  intros Hin. unfold compressor_calls in Hin.
  apply in_flat_map in Hin. destruct Hin as (v & Hv & Hin).
  destruct (v_compressed v) eqn:Ec; [|contradiction].
  destruct Hin as [Hin|[]].
  rewrite Forall_forall in Hcalls. specialize (Hcalls v Hv Ec).
  (* the visited turn is the stored one: ids are distinct *)
  pose proof (score_loop_evolves m (encode (embedder m) q)
                (Z.of_nat (length (_items m))) 0 (_items m)) as Hsc.
  fold (scored_of m q) in Hsc. rewrite <- Hitems in Hsc.
  destruct Hwf as (_ & Hsorted & _).
  assert (Hfound : compressed_text (v_item v) = Some (x :: s)).
  { clear - Hsc Hsorted Hk Hmemo Hv Hin.
    revert k Hk Hsorted Hv. revert Hsc.
    generalize (r_trace r) as trace. generalize (_items m) as turns.
    intros turns trace.
    remember (map v_item trace) as visited eqn:Ev.
    intros Hsc. revert trace Ev.
    induction Hsc as [|a b' l l' Hab Hrest IH]; intros trace Ev k Hk Hs Hv.
    - destruct k; discriminate.
    - destruct trace as [|v0 trace]; [discriminate|].
      simpl in Ev. injection Ev as -> ->.
      simpl in Hs. inversion Hs as [|? ? Hs' Hlt]; subst.
      destruct Hab as [(Hid0 & _) Hkeep0].
      destruct k as [|k]; simpl in Hk.
      + inversion Hk; subst a.
        destruct Hv as [->|Hv]; [now apply Hkeep0|].
        exfalso. rewrite Forall_forall in Hlt.
        assert (Hx : In (id (v_item v)) (map id l)).
        { rewrite (evolves_ids _ _ Hrest), map_map.
          now apply (in_map (fun v => id (v_item v))). }
        specialize (Hlt _ Hx). lia.
      + destruct Hv as [->|Hv].
        * exfalso. rewrite Forall_forall in Hlt.
          assert (Hx : In (id it) (map id l))
            by (apply in_map; eapply nth_error_In; eassumption).
          specialize (Hlt _ Hx). lia.
        * eapply IH; eauto. }
  now rewrite Hfound in Hcalls.
Qed.

(** One call on a store whose only turn has empty content, under
    [zero_mid_config]: the turn is planned COMPRESSED; if its memo is
    absent or empty the compressor is called and the empty string is
    stored again. *)
Lemma blank_call (m : FocusManager) (it : MemoryItem) :
  _items m = [it] -> cfg m = Fixtures.zero_mid_config ->
  embedder m = Fixtures.unit_embedder ->
  compressor m
  = HeuristicCompressor Fixtures.ascii_lower whitespace_counter ->
  content it = [] -> embedding it = Some [0%R; 0%R] ->
  compressed_text it = None \/ compressed_text it = Some [] ->
  exists r it',
    build_context m (lit "hello") 10 None = Some r
    /\ _items (r_self r) = [it']
    /\ cfg (r_self r) = cfg m /\ embedder (r_self r) = embedder m
    /\ compressor (r_self r) = compressor m
    /\ id it' = id it /\ content it' = []
    /\ embedding it' = Some [0%R; 0%R]
    /\ compressed_text it' = Some []
    /\ compressor_calls (r_trace r) = [id it].
Proof.
  intros Hitems Hcfg Hemb Hcomp Hcontent Hvec Hmemo.
  destruct (build_context_single m (lit "hello") 10 None it Hitems)
    as (r & H & _ & _ & Hself & Ht).
  cbv zeta in Hself, Ht.
  set (si := score_item m (encode (embedder m) (lit "hello")) 1 0 it) in *.
  assert (Hplan : plan_of (cfg m) (fst si) = COMPRESSED).
  { unfold si, score_item, ensure_embedding.
    rewrite Hvec, Hemb, Hcfg. cbn [fst].
    change (encode Fixtures.unit_embedder (lit "hello"))
      with [1%R; 0%R].
    change (1 - 1 - 0)%Z with 0%Z.
    rewrite recency_weight_now, blend_now, cosine_blank.
    rewrite Rmax_left by lra.
    apply plan_compressed; cbn; lra. }
  rewrite Hplan in Hself, Ht. cbn [pack_item] in Hself, Ht.
  set (s := try_compressed m (lit "hello") (snd si)
                           (entry_pack m 10 None) zero_counters) in *.
  destruct (try_compressed_recomputes m (lit "hello") (snd si)
              (entry_pack m 10 None) zero_counters Hmemo) as [Hc Hm].
  fold s in Hc, Hm.
  assert (Hblank : compress_item m (lit "hello") (snd si) = []).
  { unfold compress_item. rewrite Hcomp.
    change (content (snd si)) with (content it). rewrite Hcontent.
    cbn [compress HeuristicCompressor].
    apply heuristic_compress_fits. rewrite count_empty. lia. }
  rewrite Hblank in Hm.
  assert (Hev : evolves (snd si) (s_item s))
    by (apply pack_item_evolves with (desired := COMPRESSED)).
  destruct Hev as [(Hid & _ & Hcont & _) _].
  assert (Hvec' : embedding (s_item s) = embedding (snd si)).
  { unfold s, try_compressed, try_stub, try_add.
    destruct (compressed_or_compress m (lit "hello") (snd si))
      as [comp called].
    repeat match goal with
           | |- context [if ?b then _ else _] => destruct b
           end; reflexivity. }
  exists r, (s_item s). rewrite Hself, Ht. cbn [_items cfg embedder
    compressor]. repeat split; try assumption.
  - now rewrite <- Hid.
  - now rewrite <- Hcont.
  - rewrite Hvec'. unfold si, score_item, ensure_embedding.
    now rewrite Hvec.
  - unfold compressor_calls. cbn [flat_map v_compressed v_item].
    now rewrite Hc.
Qed.

(** C7 at the failing input: one stored turn with empty content, planned
    COMPRESSED.  The first call stores the compressor's result, the empty
    string, as the memo of turn 1; the second call, on the same manager
    with the same query, calls the compressor for turn 1 again. *)
Theorem empty_memo_recomputed :
  exists r1 r2,
    build_context Fixtures.blank_manager (lit "hello") 10 None = Some r1
    /\ map compressed_text (_items (r_self r1)) = [Some []]
    /\ compressor_calls (r_trace r1) = [1%Z]
    /\ build_context (r_self r1) (lit "hello") 10 None = Some r2
    /\ compressor_calls (r_trace r2) = [1%Z].
Proof.
  destruct (blank_call Fixtures.blank_manager Fixtures.blank_turn)
    as (r1 & it1 & H1 & Hi1 & Hcfg1 & Hemb1 & Hcomp1 & Hid1 & Hcont1
        & Hvec1 & Hmemo1 & Hcalls1);
    try reflexivity; [now left|].
  destruct (blank_call (r_self r1) it1)
    as (r2 & it2 & H2 & _ & _ & _ & _ & _ & _ & _ & _ & Hcalls2);
    try assumption; [now right|].
  exists r1, r2. rewrite Hi1, Hcalls2, Hid1. cbn [map].
  rewrite Hmemo1. repeat split; assumption.
Qed.

(* ================================================================== *)
(** * Examples *)
(* ================================================================== *)

Example split_example :
  split (lit "  hello  world ") = [lit "hello"; lit "world"].
Proof. reflexivity. Qed.

Example count_example :
  count whitespace_counter (lit "Stay concise.") = 2%Z
  /\ count whitespace_counter (lit "   ") = 1%Z
  /\ count whitespace_counter [] = 0%Z.
Proof. repeat split. Qed.

Example count_encoder_example :
  count (mkTokenCounter (lit "gpt-4o-mini")
                        (Some (fun text => Some (map Z.of_N text))))
        (lit "hello") = 5%Z.
Proof. reflexivity. Qed.

Example truncate_example :
  truncate_to_tokens (lit "a b  c d") 2 whitespace_counter = lit "a b".
Proof. reflexivity. Qed.

Example str_of_Z_example :
  str_of_Z 120 = lit "120" /\ str_of_Z 0 = lit "0"
  /\ str_of_Z (-7) = lit "-7".
Proof. repeat split. Qed.

Example split_sentences_example :
  split_sentences (lit "One. Two!  three")
  = [lit "One."; lit "Two!"; lit "three"].
Proof. reflexivity. Qed.

Example simple_tokenize_example :
  simple_tokenize Fixtures.ascii_lower (lit "Hello, (World)!  -- ")
  = [lit "hello"; lit "world"].
Proof. reflexivity. Qed.

Example solo_items : _items Fixtures.solo_manager = [Fixtures.solo_turn].
Proof. reflexivity. Qed.

Example tight_items : _items Fixtures.tight_manager = [Fixtures.tight_turn].
Proof. reflexivity. Qed.

Example blank_items : _items Fixtures.blank_manager = [Fixtures.blank_turn].
Proof. reflexivity. Qed.

(** With the default limit of 12 tokens the stub keeps the first line. *)
Example stub_example :
  _make_stub Fixtures.solo_manager Fixtures.solo_turn
  = lit "[ref #1 " ++ [bullet] ++ lit " user] hello there"
  /\ count whitespace_counter
           (_make_stub Fixtures.solo_manager Fixtures.solo_turn) = 6%Z.
Proof. split; reflexivity. Qed.

Example sorted_by_id_example :
  map fst (sorted_by_id
             [mkMemoryItem 3 [] [] 0%R 0 None FULL None 0%R;
              mkMemoryItem 1 [] [] 0%R 0 None FULL None 0%R;
              mkMemoryItem 2 [] [] 0%R 0 None FULL None 0%R])
  = [1%nat; 2%nat; 0%nat].
Proof. reflexivity. Qed.

(* ================================================================== *)
(** * Further properties of [build_context] *)
(* ================================================================== *)

(** X1: the packed context respects the budget: for a manager produced
    by the interface and a non-negative budget, all emitted messages
    together, the preamble included, cost at most [budget_tokens]. *)
Theorem context_within_budget (m : FocusManager) (q : str) (b : Z)
        (p : option str) :
  reachable m -> (0 <= b)%Z ->
  exists r, build_context m q b p = Some r
            /\ (total_cost (tc m) (r_messages r) <= b)%Z.
Proof.
  intros Hr Hb. destruct (build_context_total m q b p) as [r H].
  exists r. split; [exact H|].
  pose proof (reachable_well_formed m Hr) as Hwf.
  destruct (messages_cost_split m q b p r Hwf H) as (_ & _ & Htotal).
  destruct (build_context_some m q b p r H)
    as (l & Hl & _ & _ & _ & _ & Hused & _).
  destruct Hwf as (Hlen & _).
  destruct (build_context_balanced m q b p l Hlen Hl) as (Hsum & Hpos & _).
  destruct (entry_pack_nonneg m b p Hb) as [H0 _].
  specialize (Hpos H0). rewrite entry_pack_budget in Hsum.
  rewrite Htotal, Hused. lia.
Qed.

(** X1, witness: [demo_manager] with budget 8. *)
Lemma context_within_budget_witness :
  reachable Fixtures.demo_manager /\ (0 <= 8)%Z
  /\ exists r,
      build_context Fixtures.demo_manager (lit "deep dish in Chicago") 8
                    (Some (lit "Stay concise. Use bullets.")) = Some r
      /\ (total_cost (tc Fixtures.demo_manager) (r_messages r) <= 8)%Z.
Proof.
  split; [exact demo_manager_reachable|]. split; [lia|].
  apply context_within_budget; [exact demo_manager_reachable | lia].
Defined.

Lemma pack_item_negative (m : FocusManager) (q : str) (desired : Fidelity)
      (it : MemoryItem) (p : Pack) (c : Counters) :
  (budget_left p < 0)%Z ->
  s_pack (pack_item m q desired it p c) = p
  /\ s_counters (pack_item m q desired it p c) = c
  /\ s_emitted (pack_item m q desired it p c) = None.
Proof.
  intros Hneg.
  destruct (pack_item_result m q desired it p c)
    as [He _ Hp Hc _ | f text _ _ _ _ _ Hfit _ _ _].
  - auto.
  - pose proof (count_nonneg (tc m) text). lia.
Qed.

(** X2: with a negative budget nothing fits: no message is emitted, not
    even an empty one, and every counter stays at zero. *)
Theorem negative_budget_emits_nothing (m : FocusManager) (q : str) (b : Z)
        (p : option str) :
  (b < 0)%Z ->
  exists r, build_context m q b p = Some r
            /\ r_messages r = []
            /\ used (r_stats r) = 0%Z
            /\ (st_expanded_count (r_stats r) = 0
                /\ st_compressed_count (r_stats r) = 0
                /\ st_stub_count (r_stats r) = 0)%Z
            /\ Forall (fun v => v_emitted v = None) (r_trace r).
Proof.
  intros Hb. destruct (build_context_total m q b p) as [r H].
  exists r. split; [exact H|].
  destruct (build_context_some m q b p r H)
    as (l & Hl & Hmsg & Ht & _ & _ & Hu & _ & _ & _ & He & Hc & Hs).
  assert (Hentry : entry_pack m b p = mkPack [] b).
  { unfold entry_pack, add_preamble, try_add. cbn [budget_left messages].
    destruct p as [[|x s]|]; try reflexivity.
    pose proof (count_nonneg (tc m) (x :: s)).
    destruct (count (tc m) (x :: s) <=? b)%Z eqn:E; [|reflexivity].
    apply Z.leb_le in E. lia. }
  assert (Hinv : l_pack l = mkPack [] b /\ l_counters l = zero_counters
                 /\ Forall (fun v => v_emitted v = None) (l_trace l)).
  { revert Hl.
    apply pack_loop_preserves
      with (P := fun l => l_pack l = mkPack [] b
                          /\ l_counters l = zero_counters
                          /\ Forall (fun v => v_emitted v = None)
                                    (l_trace l)).
    - intros l0 pos it desired _ _ (Hp0 & Hc0 & Ht0).
      destruct (pack_item_negative m q desired it (l_pack l0)
                  (l_counters l0)) as (Hp1 & Hc1 & He1).
      { rewrite Hp0. exact Hb. }
      unfold loop_step. cbn [l_pack l_counters l_trace].
      rewrite Hp1, Hc1. repeat split; try assumption.
      apply Forall_app. split; [assumption|]. now repeat constructor.
    - unfold entry_loop. cbn [l_pack l_counters l_trace].
      rewrite Hentry. repeat split. constructor. }
  destruct Hinv as (Hp & Hcs & Htr).
  rewrite Hmsg, Hu, He, Hc, Hs, Ht, Hp, Hcs. cbn. repeat split; auto.
Qed.

(** X2, witness: [demo_manager] with budget -1. *)
Lemma negative_budget_emits_nothing_witness :
  (-1 < 0)%Z
  /\ exists r,
      build_context Fixtures.demo_manager (lit "deep dish") (-1)
                    (Some (lit "Stay concise.")) = Some r
      /\ r_messages r = []
      /\ used (r_stats r) = 0%Z
      /\ (st_expanded_count (r_stats r) = 0
          /\ st_compressed_count (r_stats r) = 0
          /\ st_stub_count (r_stats r) = 0)%Z
      /\ Forall (fun v => v_emitted v = None) (r_trace r).
Proof.
  split; [lia|].
  apply negative_budget_emits_nothing. lia.
Defined.

(** X3: a preamble that costs more than the budget is dropped without
    any other effect: the call is the same as a call without preamble. *)
Theorem oversized_preamble_dropped (m : FocusManager) (q : str) (b : Z)
        (pre : str) :
  (b < count (tc m) pre)%Z ->
  build_context m q b (Some pre) = build_context m q b None.
Proof.
  intros Hbig.
  assert (E : add_preamble (tc m) (Some pre) (mkPack [] b)
              = add_preamble (tc m) None (mkPack [] b)).
  { unfold add_preamble, try_add. cbn [budget_left].
    destruct pre as [|x s]; [reflexivity|].
    destruct (count (tc m) (x :: s) <=? b)%Z eqn:E; [|reflexivity].
    apply Z.leb_le in E. lia. }
  unfold build_context. now rewrite E.
Qed.

(** X3, witness: a preamble of two words against a budget of one. *)
Lemma oversized_preamble_dropped_witness :
  (1 < count (tc Fixtures.demo_manager) (lit "Stay concise."))%Z
  /\ build_context Fixtures.demo_manager (lit "deep dish") 1
                   (Some (lit "Stay concise."))
     = build_context Fixtures.demo_manager (lit "deep dish") 1 None.
Proof.
  split; [reflexivity|].
  apply oversized_preamble_dropped. reflexivity.
Defined.

Lemma planned_partition (d : dict) (scored : list (R * MemoryItem))
      (a b c : Z) :
  planned_count d FULL scored = Some a ->
  planned_count d COMPRESSED scored = Some b ->
  planned_count d PLACEHOLDER scored = Some c ->
  (a + b + c)%Z = Z.of_nat (length scored).
Proof.
  revert a b c. induction scored as [|[s it] scored IH]; intros a b c;
    simpl planned_count.
  - intros Ha Hb Hc. inversion Ha; inversion Hb; inversion Hc. reflexivity.
  - destruct (d (id it)) as [f|]; [|discriminate].
    destruct (planned_count d FULL scored) as [a'|]; [|discriminate].
    destruct (planned_count d COMPRESSED scored) as [b'|]; [|discriminate].
    destruct (planned_count d PLACEHOLDER scored) as [c'|]; [|discriminate].
    intros Ha Hb Hc. inversion Ha; inversion Hb; inversion Hc; subst.
    specialize (IH a' b' c' eq_refl eq_refl eq_refl).
    simpl length. destruct f; cbn [Fidelity_eqb]; lia.
Qed.

Lemma build_context_planned (m : FocusManager) (q : str) (b : Z)
      (p : option str) (r : Run) :
  build_context m q b p = Some r ->
  items_total (r_stats r) = Z.of_nat (length (_items m))
  /\ planned_count (plan_for m q) FULL (scored_of m q)
     = Some (items_planned_full (r_stats r))
  /\ planned_count (plan_for m q) COMPRESSED (scored_of m q)
     = Some (items_planned_compressed (r_stats r))
  /\ planned_count (plan_for m q) PLACEHOLDER (scored_of m q)
     = Some (items_planned_stub (r_stats r)).
Proof.
  unfold build_context.
  fold (scored_of m q). fold (plan_for m q). fold (entry_pack m b p).
  fold (entry_loop m q b p).
  destruct (pack_loop m q (plan_for m q)
              (sorted_by_id (map snd (scored_of m q)))
              (entry_loop m q b p)) as [l|]; [|discriminate].
  destruct (planned_count (plan_for m q) FULL (scored_of m q));
    [|discriminate].
  destruct (planned_count (plan_for m q) COMPRESSED (scored_of m q));
    [|discriminate].
  destruct (planned_count (plan_for m q) PLACEHOLDER (scored_of m q));
    [|discriminate].
  intros H. inversion H; subst; clear H. cbn. auto.
Qed.

(** X4: the plan covers every turn exactly once: the three planned
    counts of the statistics add up to [items_total], the number of
    stored turns, whatever the budget. *)
Theorem planned_counts_partition (m : FocusManager) (q : str) (b : Z)
        (p : option str) :
  exists r, build_context m q b p = Some r
    /\ items_total (r_stats r) = Z.of_nat (length (_items m))
    /\ (items_planned_full (r_stats r)
        + items_planned_compressed (r_stats r)
        + items_planned_stub (r_stats r))%Z = items_total (r_stats r)
    /\ (0 <= items_planned_full (r_stats r))%Z
    /\ (0 <= items_planned_compressed (r_stats r))%Z
    /\ (0 <= items_planned_stub (r_stats r))%Z.
Proof.
  destruct (build_context_total m q b p) as [r H].
  exists r. split; [exact H|].
  destruct (build_context_planned m q b p r H) as (Ht & Hf & Hc & Hp).
  assert (Hpos : forall f k sc, planned_count (plan_for m q) f sc = Some k
                                -> (0 <= k)%Z).
  { intros f k sc. revert k.
    induction sc as [|[s it] sc IH]; intros k Hk; simpl in Hk.
    - inversion Hk. lia.
    - destruct (plan_for m q (id it)) as [f'|]; [|discriminate].
      destruct (planned_count (plan_for m q) f sc) as [k'|];
        [|discriminate].
      inversion Hk. specialize (IH k' eq_refl).
      destruct (Fidelity_eqb f' f); lia. }
  rewrite Ht. repeat split; eauto.
  rewrite (planned_partition _ _ _ _ _ Hf Hc Hp).
  unfold scored_of. now rewrite score_loop_length.
Qed.

(** X5: a call neither adds, removes nor reorders turns, and leaves the
    id, role, content, creation time and token length of every turn, the
    collaborators, the configuration and the next id as they were. *)
Theorem turns_preserved (m : FocusManager) (q : str) (b : Z)
        (p : option str) :
  exists r, build_context m q b p = Some r
    /\ length (_items (r_self r)) = length (_items m)
    /\ Forall2 same_turn (_items m) (_items (r_self r))
    /\ embedder (r_self r) = embedder m /\ tc (r_self r) = tc m
    /\ compressor (r_self r) = compressor m /\ cfg (r_self r) = cfg m
    /\ _next_id (r_self r) = _next_id m.
Proof.
  destruct (build_context_total m q b p) as [r H].
  exists r. split; [exact H|].
  destruct (build_context_store m q b p r H)
    as (Hev & Htc & Hcfg & Hcomp & Hemb & Hnext).
  repeat split; try assumption.
  - symmetry. eapply Forall2_length; eassumption.
  - clear - Hev. induction Hev as [|x y a b' [Hxy _] _ IH];
      constructor; assumption.
Qed.

(** X6: ids are consecutive from 1: in a manager produced by the
    interface the turn at position [k] has id [k + 1], and [_next_id] is
    one more than the number of turns. *)
Theorem ids_are_consecutive (m : FocusManager) :
  reachable m ->
  map id (_items m) = map Z.of_nat (seq 1 (length (_items m)))
  /\ _next_id m = (Z.of_nat (length (_items m)) + 1)%Z.
Proof.
  induction 1 as [py_lower e t c g | m now r c Hr [IHi IHn]
                  | m q b p r Hr [IHi IHn] H].
  - split; reflexivity.
  - unfold add_message. cbn [fst _items _next_id].
    rewrite map_app, length_app, IHi. cbn [map id length].
    rewrite seq_app, map_app. cbn [seq map].
    rewrite IHn. split; [|lia].
    f_equal. cbn [id set_embedding set_token_len]. f_equal. lia.
  - destruct (build_context_store m q b p r H)
      as (Hev & _ & _ & _ & _ & Hnext).
    rewrite Hnext, <- (evolves_ids _ _ Hev),
      <- (Forall2_length Hev). auto.
Qed.

(** X6, witness: [demo_manager]. *)
Lemma ids_are_consecutive_witness :
  reachable Fixtures.demo_manager
  /\ map id (_items Fixtures.demo_manager)
     = map Z.of_nat (seq 1 (length (_items Fixtures.demo_manager)))
  /\ _next_id Fixtures.demo_manager
     = (Z.of_nat (length (_items Fixtures.demo_manager)) + 1)%Z.
Proof.
  split; [exact demo_manager_reachable|].
  apply ids_are_consecutive. exact demo_manager_reachable.
Defined.

Lemma store_set_Forall (P : MemoryItem -> Prop) (pos : nat)
      (x : MemoryItem) (l : list MemoryItem) :
  Forall P l -> P x -> Forall P (store_set pos x l).
Proof.
  intros Hl Hx. revert pos. induction Hl as [|a l Ha Hl IH]; intros pos.
  - destruct pos; constructor.
  - destruct pos; simpl; constructor; auto.
Qed.

Lemma pack_item_embedding (m : FocusManager) (q : str) (desired : Fidelity)
      (it : MemoryItem) (p : Pack) (c : Counters) :
  embedding (s_item (pack_item m q desired it p c)) = embedding it.
Proof.
  unfold pack_item, try_compressed, try_stub, try_add.
  destruct (compressed_or_compress m q it) as [comp called].
  destruct desired;
    repeat match goal with
           | |- context [if ?b then _ else _] => destruct b
           end; reflexivity.
Qed.

(** X7: the caches are right: in a manager produced by the interface
    every turn's [token_len] is the count of its content and its
    [embedding] is the encoding of its content, so the lazy re-encoding
    of the scoring loop never changes an embedding. *)
Theorem caches_are_right (m : FocusManager) :
  reachable m ->
  Forall (fun it => token_len it = count (tc m) (content it)
                    /\ embedding it
                       = Some (encode (embedder m) (content it)))
         (_items m).
Proof.
  induction 1 as [py_lower e t c g | m now r c Hr IH
                  | m q b p r Hr IH H].
  - constructor.
  - unfold add_message. cbn [fst _items tc embedder].
    apply Forall_app. split; [exact IH|]. repeat constructor.
  - destruct (build_context_store m q b p r H)
      as (_ & Htc & _ & _ & Hemb & _).
    rewrite Htc, Hemb.
    destruct (build_context_some m q b p r H)
      as (l & Hl & _ & _ & Hself & _).
    rewrite Hself. cbn [_items].
    set (P := fun it => token_len it = count (tc m) (content it)
                        /\ embedding it
                           = Some (encode (embedder m) (content it))).
    assert (Hscored : Forall P (map snd (scored_of m q))).
    { unfold scored_of.
      generalize (Z.of_nat (length (_items m))) as n.
      generalize 0%Z as idx. clear - IH.
      induction IH as [|it turns [Hlen Hvec] _ IHt]; intros idx n;
        simpl; constructor; [|apply IHt].
      unfold P, score_item, ensure_embedding.
      cbn [snd token_len content embedding set_last_score set_embedding].
      rewrite Hvec. split; [exact Hlen|].
      now destruct (encode (embedder m) (content it)). }
    revert Hl.
    apply pack_loop_preserves with (P := fun l => Forall P (l_store l)).
    + intros l0 pos it desired Hin _ Hst. unfold loop_step.
      cbn [l_store]. apply store_set_Forall; [exact Hst|].
      apply sorted_by_id_members in Hin.
      rewrite Forall_forall in Hscored. destruct (Hscored it Hin)
        as [Hlen Hvec].
      destruct (pack_item_evolves m q desired it (l_pack l0)
                  (l_counters l0)) as [(_ & _ & Hc & _ & Ht) _].
      unfold P. rewrite pack_item_embedding, <- Hc, <- Ht. auto.
    + exact Hscored.
Qed.

(** X7, witness: [demo_manager]. *)
Lemma caches_are_right_witness :
  reachable Fixtures.demo_manager
  /\ Forall (fun it =>
               token_len it
               = count (tc Fixtures.demo_manager) (content it)
               /\ embedding it
                  = Some (encode (embedder Fixtures.demo_manager)
                                 (content it)))
            (_items Fixtures.demo_manager).
Proof.
  split; [exact demo_manager_reachable|].
  apply caches_are_right. exact demo_manager_reachable.
Defined.

(** X8: on an empty history the context holds at most the preamble:
    the output is the preamble message when it fits and nothing
    otherwise, every counter is zero and no turn is visited. *)
Theorem empty_history (m : FocusManager) (q : str) (b : Z)
        (p : option str) :
  _items m = [] ->
  exists r, build_context m q b p = Some r
    /\ r_messages r = preamble_message (tc m) p b
    /\ used (r_stats r) = 0%Z
    /\ items_total (r_stats r) = 0%Z
    /\ (items_planned_full (r_stats r) = 0
        /\ items_planned_compressed (r_stats r) = 0
        /\ items_planned_stub (r_stats r) = 0)%Z
    /\ r_trace r = [] /\ _items (r_self r) = [].
Proof.
  intros He. destruct (build_context_total m q b p) as [r H].
  exists r. split; [exact H|].
  destruct (build_context_some m q b p r H)
    as (l & Hl & Hmsg & Ht & Hself & _ & Hu & _).
  destruct (build_context_planned m q b p r H) as (Htot & Hf & Hc & Hp).
  assert (Hs : scored_of m q = []) by (unfold scored_of; now rewrite He).
  rewrite Hs in Hl, Hf, Hc, Hp. cbn in Hl, Hf, Hc, Hp.
  inversion Hl; subst l. inversion Hf. inversion Hc. inversion Hp.
  rewrite Hmsg, Ht, Hself, Hu, Htot, He. unfold entry_loop.
  cbn [l_pack l_trace l_store l_counters _items]. rewrite Hs.
  rewrite entry_pack_messages. repeat split.
Qed.

(** X8, witness: a manager fresh from the constructor. *)
Lemma empty_history_witness :
  _items (init Fixtures.ascii_lower Fixtures.unit_embedder
               whitespace_counter None None) = []
  /\ exists r,
      build_context (init Fixtures.ascii_lower Fixtures.unit_embedder
                          whitespace_counter None None)
                    (lit "hello") 10 (Some (lit "Stay concise."))
      = Some r
      /\ r_messages r
         = preamble_message whitespace_counter
                            (Some (lit "Stay concise.")) 10
      /\ used (r_stats r) = 0%Z
      /\ items_total (r_stats r) = 0%Z
      /\ (items_planned_full (r_stats r) = 0
          /\ items_planned_compressed (r_stats r) = 0
          /\ items_planned_stub (r_stats r) = 0)%Z
      /\ r_trace r = [] /\ _items (r_self r) = [].
Proof.
  split; [reflexivity|].
  exact (empty_history
           (init Fixtures.ascii_lower Fixtures.unit_embedder
                 whitespace_counter None None)
           (lit "hello") 10 (Some (lit "Stay concise.")) eq_refl).
Defined.

Lemma StronglySorted_lt_NoDup (l : list Z) :
  StronglySorted Z.lt l -> NoDup l.
Proof.
  induction 1 as [|x l Hl IH Hx]; constructor; [|assumption].
  intros Hin. rewrite Forall_forall in Hx. specialize (Hx x Hin). lia.
Qed.

Lemma compressor_calls_sorted (trace : list Visit) :
  StronglySorted Z.lt (map (fun v => id (v_item v)) trace) ->
  StronglySorted Z.lt (compressor_calls trace).
Proof.
  assert (Hin : forall (P : Z -> Prop) t,
             Forall P (map (fun v => id (v_item v)) t) ->
             Forall P (compressor_calls t)).
  { intros P t. induction t as [|v t IH]; intros H; simpl;
      [constructor|].
    inversion H; subst. apply Forall_app. split; [|now apply IH].
    destruct (v_compressed v); repeat constructor. assumption. }
  induction trace as [|v trace IH]; intros H; simpl; [constructor|].
  inversion H as [|? ? Hs Hall]; subst.
  destruct (v_compressed v); simpl; [|now apply IH].
  constructor; [now apply IH | now apply Hin].
Qed.

(** X10: within one call the compressor is called at most once per
    turn, and only for stored turns. *)
Theorem one_compression_per_call (m : FocusManager) (q : str) (b : Z)
        (p : option str) :
  reachable m ->
  exists r, build_context m q b p = Some r
    /\ NoDup (compressor_calls (r_trace r))
    /\ incl (compressor_calls (r_trace r)) (map id (_items m)).
Proof.
  intros Hr. destruct (build_context_total m q b p) as [r H].
  exists r. split; [exact H|].
  pose proof (reachable_well_formed m Hr) as Hwf.
  destruct (build_context_trace m q b p r Hwf H) as (Hitems & _).
  pose proof (score_loop_evolves m (encode (embedder m) q)
                (Z.of_nat (length (_items m))) 0 (_items m)) as Hev.
  fold (scored_of m q) in Hev. rewrite <- Hitems in Hev.
  assert (Hids : map (fun v => id (v_item v)) (r_trace r)
                 = map id (_items m)).
  { rewrite (evolves_ids _ _ Hev). now rewrite map_map. }
  split.
  - apply StronglySorted_lt_NoDup, compressor_calls_sorted.
    rewrite Hids. apply Hwf.
  - rewrite <- Hids. intros k Hk. unfold compressor_calls in Hk.
    apply in_flat_map in Hk. destruct Hk as (v & Hv & Hk).
    destruct (v_compressed v); [|contradiction].
    destruct Hk as [<-|[]].
    now apply (in_map (fun v => id (v_item v))).
Qed.

(** X10, witness: [demo_manager]. *)
Lemma one_compression_per_call_witness :
  reachable Fixtures.demo_manager
  /\ exists r,
      build_context Fixtures.demo_manager (lit "deep dish") 3 None = Some r
      /\ NoDup (compressor_calls (r_trace r))
      /\ incl (compressor_calls (r_trace r))
              (map id (_items Fixtures.demo_manager)).
Proof.
  split; [exact demo_manager_reachable|].
  apply one_compression_per_call. exact demo_manager_reachable.
Defined.

Lemma total_cost_nonneg (counter : TokenCounter) (msgs : list (str * str)) :
  (0 <= total_cost counter msgs)%Z.
Proof.
  induction msgs as [|x msgs IH]; [cbn; lia|].
  change (total_cost counter (x :: msgs))
    with (count counter (snd x) + total_cost counter msgs)%Z.
  pose proof (count_nonneg counter (snd x)). lia.
Qed.

Lemma packed_cost (m : FocusManager) (q : str) (b : Z) (p : option str)
      (r : Run) :
  well_formed m -> (0 <= b)%Z -> build_context m q b p = Some r ->
  (total_cost (tc m) (r_messages r) <= b)%Z
  /\ (0 <= used (r_stats r) <= total_cost (tc m) (r_messages r))%Z.
Proof.
  intros Hwf Hb H.
  destruct (messages_cost_split m q b p r Hwf H) as (_ & Hturns & Htotal).
  destruct (build_context_some m q b p r H)
    as (l & Hl & _ & _ & _ & _ & Hused & _).
  destruct Hwf as (Hlen & _).
  destruct (build_context_balanced m q b p l Hlen Hl) as (Hsum & Hpos & _).
  destruct (entry_pack_nonneg m b p Hb) as [H0 _].
  specialize (Hpos H0). rewrite entry_pack_budget in Hsum.
  pose proof (total_cost_nonneg (tc m) (preamble_message (tc m) p b)).
  pose proof (total_cost_nonneg (tc m)
                (map snd (emitted_turns (r_trace r)))) as Hn.
  rewrite Htotal. rewrite Hturns in Hn. rewrite Hused in *. lia.
Qed.

Lemma count_zero_empty (counter : TokenCounter) (text : str) :
  _enc counter = None -> count counter text = 0%Z -> text = [].
Proof.
  intros He H0. destruct text as [|x s]; [reflexivity|].
  rewrite count_whitespace in H0 by (assumption || discriminate).
  unfold fallback_count in H0. lia.
Qed.

(** X12: with budget 0 and the white-space counter only empty texts can
    be emitted: [used] is 0, a non-empty preamble is dropped, and every
    message of the output has an empty text. *)
Theorem zero_budget_emits_empty_texts (m : FocusManager) (q : str)
        (p : option str) :
  reachable m -> _enc (tc m) = None ->
  exists r, build_context m q 0 p = Some r
    /\ used (r_stats r) = 0%Z
    /\ preamble_message (tc m) p 0 = []
    /\ Forall (fun msg => snd msg = []) (r_messages r).
Proof.
  intros Hr He. destruct (build_context_total m q 0 p) as [r H].
  exists r. split; [exact H|].
  destruct (packed_cost m q 0 p r (reachable_well_formed m Hr)
              (Z.le_refl 0) H) as [Hcost Hused].
  split; [lia|]. split.
  - unfold preamble_message. destruct p as [[|x s]|]; try reflexivity.
    destruct (count (tc m) (x :: s) <=? 0)%Z eqn:E; [|reflexivity].
    apply Z.leb_le in E. pose proof (count_nonneg (tc m) (x :: s)).
    assert (Hz : count (tc m) (x :: s) = 0%Z) by lia.
    apply (count_zero_empty _ _ He) in Hz. discriminate.
  - revert Hcost. generalize (r_messages r) as msgs.
    induction msgs as [|x msgs IH]; intros Hc; constructor;
      change (total_cost (tc m) (x :: msgs))
        with (count (tc m) (snd x) + total_cost (tc m) msgs)%Z in Hc;
      pose proof (count_nonneg (tc m) (snd x));
      pose proof (total_cost_nonneg (tc m) msgs).
    + apply (count_zero_empty _ _ He).
      assert (Hz : (count (tc m) (snd x) <= 0)%Z) by lia.
      apply Z.le_antisymm; [exact Hz | exact H0].
    + apply IH. lia.
Qed.

(** X12, witness: [demo_manager]. *)
Lemma zero_budget_emits_empty_texts_witness :
  reachable Fixtures.demo_manager
  /\ _enc (tc Fixtures.demo_manager) = None
  /\ exists r,
      build_context Fixtures.demo_manager (lit "deep dish") 0
                    (Some (lit "Stay concise.")) = Some r
      /\ used (r_stats r) = 0%Z
      /\ preamble_message (tc Fixtures.demo_manager)
                          (Some (lit "Stay concise.")) 0 = []
      /\ Forall (fun msg => snd msg = []) (r_messages r).
Proof.
  split; [exact demo_manager_reachable|]. split; [reflexivity|].
  apply zero_budget_emits_empty_texts;
    [exact demo_manager_reachable | reflexivity].
Defined.

(** X9: the cascade takes the first candidate that fits, from the
    planned fidelity downwards: the achieved fidelity fits the remaining
    budget, every candidate tried before it did not, and a turn is
    dropped only when not even its stub fits. *)
Theorem cascade_first_fit (m : FocusManager) (q : str)
        (desired : Fidelity) (it : MemoryItem) (p : Pack) (c : Counters) :
  let s := pack_item m q desired it p c in
  let fits := fun text => (count (tc m) text <= budget_left p)%Z in
  let comp := fst (compressed_or_compress m q it) in
  match s_achieved s with
  | Some FULL => desired = FULL /\ fits (content it)
  | Some COMPRESSED =>
      desired <> PLACEHOLDER /\ fits comp
      /\ (desired = FULL -> ~ fits (content it))
  | Some PLACEHOLDER =>
      fits (_make_stub m it)
      /\ (desired <> PLACEHOLDER -> ~ fits comp)
      /\ (desired = FULL -> ~ fits (content it))
  | None =>
      ~ fits (_make_stub m it)
      /\ (desired <> PLACEHOLDER -> ~ fits comp)
      /\ (desired = FULL -> ~ fits (content it))
  end.
Proof.
  cbv zeta.
  unfold pack_item, try_compressed, try_stub, try_add.
  destruct (compressed_or_compress m q it) as [comp called].
  cbn [fst role set_compressed_text].
  change (_make_stub m (set_compressed_text (Some comp) it))
    with (_make_stub m it).
  destruct desired;
    repeat match goal with
           | |- context [(?a <=? ?b)%Z] =>
               let H := fresh "Hfit" in
               destruct (a <=? b)%Z eqn:H;
               [apply Z.leb_le in H | apply Z.leb_gt in H]
           end;
    cbn [s_achieved]; repeat split; try assumption; try discriminate;
    try congruence; intros; try lia.
Qed.

Lemma insert_keeps_order (x : nat * MemoryItem)
      (l : list (nat * MemoryItem)) :
  StronglySorted id_then_position l ->
  Forall (fun y => (fst x < fst y)%nat) l ->
  StronglySorted id_then_position
    (insert_sorted (fun y x => (id (snd y) <? id (snd x))%Z) x l).
Proof.
  induction 1 as [|y l Hl IH Hy]; intros Hpos; simpl.
  - repeat constructor.
  - inversion Hpos as [|? ? Hxy Hrest]; subst.
    destruct (id (snd y) <? id (snd x))%Z eqn:E.
    + apply Z.ltb_lt in E. constructor; [now apply IH|].
      eapply Permutation_Forall;
        [symmetry; apply insert_sorted_perm|].
      constructor; [now left | exact Hy].
    + apply Z.ltb_ge in E. constructor; [now constructor|].
      constructor.
      * unfold id_then_position. lia.
      * rewrite Forall_forall in *. intros z Hz.
        specialize (Hy z Hz). specialize (Hrest z Hz).
        unfold id_then_position in *. lia.
Qed.

Lemma stable_sort_enumerate (turns : list MemoryItem) (k : nat) :
  StronglySorted id_then_position
    (stable_sort (fun y x => (id (snd y) <? id (snd x))%Z)
                 (combine (seq k (length turns)) turns)).
Proof.
  revert k. induction turns as [|it turns IH]; intros k; simpl.
  - constructor.
  - apply insert_keeps_order; [apply IH|].
    eapply Permutation_Forall; [symmetry; apply stable_sort_perm|].
    apply Forall_forall. intros [pos it'] Hin.
    destruct (enumerate_nth turns (S k) pos it' Hin) as (j & -> & _).
    simpl. lia.
Qed.

(** X13: [sorted(self._items, key=lambda x: x.id)] on any store: the
    result holds each stored object once, is ascending by id, and keeps
    the store order among equal ids. *)
Theorem sorted_by_id_correct (turns : list MemoryItem) :
  Permutation (map snd (sorted_by_id turns)) turns
  /\ (forall pos it, In (pos, it) (sorted_by_id turns) ->
                     nth_error turns pos = Some it)
  /\ StronglySorted id_then_position (sorted_by_id turns).
Proof.
  split; [|split].
  - unfold sorted_by_id. rewrite stable_sort_perm.
    clear. generalize 0%nat as k.
    induction turns as [|it turns IH]; intros k; simpl;
      [reflexivity | now rewrite IH].
  - intros pos it. apply sorted_by_id_nth.
  - apply stable_sort_enumerate.
Qed.

Lemma memo_manager_reachable : reachable Fixtures.memo_manager.
Proof.
  set (base := fst (add_message
                      (init Fixtures.ascii_lower Fixtures.unit_embedder
                            whitespace_counter None
                            (Some Fixtures.zero_mid_config))
                      0%R (lit "user") (lit "hello"))).
  set (turn := mkMemoryItem 1 (lit "user") (lit "hello") 0%R 1
                            (Some [1%R; 0%R]) FULL None 0%R).
  assert (Hbase : reachable base) by apply reach_add, reach_init.
  destruct (build_context_single base [] 10 None turn eq_refl)
    as (r & H & _ & _ & Hself & _).
  cbv zeta in Hself.
  set (si := score_item base (encode (embedder base) []) 1 0 turn) in *.
  assert (Hscore : fst si = 0%R).
  { unfold si, score_item, ensure_embedding. cbn [fst embedding turn].
    change (1 - 1 - 0)%Z with 0%Z.
    rewrite recency_weight_now, blend_now.
    change (encode (embedder base) []) with [0%R; 0%R].
    assert (E : cosine [0%R; 0%R] [1%R; 0%R] = 0%R)
      by (unfold cosine; simpl; lra).
    rewrite E. apply Rmax_left. lra. }
  assert (Hplan : plan_of (cfg base) (fst si) = COMPRESSED).
  { rewrite Hscore. apply plan_compressed; cbn; lra. }
  rewrite Hplan in Hself. cbn [pack_item] in Hself.
  assert (Hcomp : compress_item base [] (snd si) = lit "hello").
  { unfold compress_item.
    change (compress (compressor base))
      with (heuristic_compress Fixtures.ascii_lower whitespace_counter).
    change (content (snd si)) with (lit "hello").
    apply heuristic_compress_fits.
    change (count whitespace_counter (lit "hello")) with 1%Z. lia. }
  assert (Hitem : s_item (try_compressed base [] (snd si)
                            (entry_pack base 10 None) zero_counters)
                  = Fixtures.memo_turn).
  { unfold try_compressed, compressed_or_compress.
    change (compressed_text (snd si)) with (@None str). cbv iota beta.
    rewrite Hcomp.
    change (try_add (tc base) (role (set_compressed_text
                                       (Some (lit "hello")) (snd si)))
                    (lit "hello") (entry_pack base 10 None))
      with (true, mkPack [(lit "user", lit "hello")] 9%Z).
    cbv iota beta. cbn [s_item].
    unfold Fixtures.memo_turn, set_compression_state, set_compressed_text.
    change (id (snd si)) with 1%Z.
    change (role (snd si)) with (lit "user").
    change (content (snd si)) with (lit "hello").
    change (created_at_s (snd si)) with 0%R.
    change (token_len (snd si)) with 1%Z.
    change (embedding (snd si)) with (Some [1%R; 0%R]).
    change (last_score (snd si)) with (fst si).
    now rewrite Hscore. }
  rewrite Hitem in Hself.
  replace Fixtures.memo_manager with (r_self r)
    by (rewrite Hself; reflexivity).
  eapply reach_build; eassumption.
Qed.


(* ================================================================== *)
(** * Further properties of the scores and of the plan *)
(* ================================================================== *)

Lemma ln_half_negative : (ln 0.5 < 0)%R.
Proof. rewrite <- ln_1. apply ln_increasing; lra. Qed.

Lemma Rpower_half_range (x : R) :
  (0 <= x)%R -> (0 < Rpower 0.5 x <= 1)%R.
Proof.
  intros Hx. unfold Rpower. split; [apply exp_pos|].
  pose proof ln_half_negative as Hln.
  destruct (Req_dec x 0) as [->|Hne].
  - rewrite Rmult_0_l, exp_0. lra.
  - left. rewrite <- exp_0. apply exp_increasing. nra.
Qed.


Lemma half_life_positive (c : FocusConfig) :
  (0 < IZR (Z.max 1 (recency_half_life c)))%R.
Proof. apply IZR_lt. lia. Qed.

Lemma recency_weight_range (c : FocusConfig) (t : Z) :
  (0 <= t)%Z -> (0 < recency_weight c t <= 1)%R.
Proof.
  intros Ht. unfold recency_weight. cbv zeta.
  apply Rpower_half_range.
  pose proof (half_life_positive c). apply IZR_le in Ht.
  apply Rmult_le_pos; [exact Ht|].
  left. now apply Rinv_0_lt_compat.
Qed.

(** X14: the score of a stored turn lies between a quarter of the
    similarity clipped at zero and that clipped similarity itself; it is
    never negative, and it is zero when the similarity is not
    positive. *)
Theorem score_bounds (m : FocusManager) (q : str) (p : nat)
        (it : MemoryItem) :
  nth_error (_items m) p = Some it ->
  let similarity :=
    cosine (encode (embedder m) q) (ensure_embedding (embedder m) it) in
  exists score it',
    nth_error (scored_of m q) p = Some (score, it')
    /\ (0.25 * Rmax 0 similarity <= score <= Rmax 0 similarity)%R
    /\ (0 <= score)%R
    /\ ((similarity <= 0)%R -> score = 0%R).
Proof.
  intros Hn similarity.
  pose proof (score_loop_nth m (encode (embedder m) q)
                (Z.of_nat (length (_items m))) (_items m) 0 p it Hn) as Hs.
  fold (scored_of m q) in Hs. rewrite Z.add_0_l in Hs.
  eexists _, _. split; [exact Hs|].
  assert (Hp : (p < length (_items m))%nat)
    by (apply nth_error_Some; congruence).
  destruct (recency_weight_range (cfg m)
              (Z.of_nat (length (_items m)) - 1 - Z.of_nat p))
    as [Hlo Hhi]; [lia|].
  fold similarity. unfold blend.
  set (w := recency_weight (cfg m)
              (Z.of_nat (length (_items m)) - 1 - Z.of_nat p)) in *.
  pose proof (Rmax_l 0 similarity) as Hmax.
  repeat split; try nra.
  intros Hneg. rewrite Rmax_left by lra. lra.
Qed.

(** X14, witness: the older turn of [demo_manager]. *)
Lemma score_bounds_witness :
  nth_error (_items Fixtures.demo_manager) 0
  = Some (mkMemoryItem 1 (lit "user") (lit "plan a trip to Chicago") 0%R 5
            (Some [1%R; 0%R]) FULL None 0%R)
  /\ exists score it',
      nth_error (scored_of Fixtures.demo_manager (lit "deep dish")) 0
      = Some (score, it')
      /\ (0.25 * Rmax 0 (cosine [1%R; 0%R] [1%R; 0%R]) <= score
          <= Rmax 0 (cosine [1%R; 0%R] [1%R; 0%R]))%R
      /\ (0 <= score)%R
      /\ ((cosine [1%R; 0%R] [1%R; 0%R] <= 0)%R -> score = 0%R).
Proof.
  split; [reflexivity|].
  exact (score_bounds Fixtures.demo_manager (lit "deep dish") 0
           (mkMemoryItem 1 (lit "user") (lit "plan a trip to Chicago") 0%R
              5 (Some [1%R; 0%R]) FULL None 0%R) eq_refl).
Defined.


(** X16: the plan is monotone in the score: a higher score never gets a
    cheaper planned fidelity, whatever the thresholds are. *)
Theorem plan_monotone (c : FocusConfig) (s1 s2 : R) :
  (s1 <= s2)%R -> cheaper_eq (plan_of c s1) (plan_of c s2) = true.
Proof.
  intros H. unfold plan_of.
  destruct (Rgeb s1 (high_threshold c)) eqn:H1;
    destruct (Rgeb s2 (high_threshold c)) eqn:H2;
    destruct (Rgeb s1 (mid_threshold c)) eqn:M1;
    destruct (Rgeb s2 (mid_threshold c)) eqn:M2;
    try reflexivity;
    repeat match goal with
           | E : Rgeb _ _ = true |- _ => apply Rgeb_true in E
           | E : Rgeb _ _ = false |- _ => apply Rgeb_false in E
           end; lra.
Qed.

(** X16, witness: two scores around the default thresholds. *)
Lemma plan_monotone_witness :
  (0.2 <= 0.4)%R
  /\ cheaper_eq (plan_of default_config 0.2) (plan_of default_config 0.4)
     = true.
Proof.
  assert (H : (0.2 <= 0.4)%R) by lra.
  split; [exact H|]. exact (plan_monotone default_config 0.2 0.4 H).
Defined.

(** X17: a turn whose similarity to the query is not positive scores 0
    and, with positive thresholds, is planned PLACEHOLDER however recent
    it is. *)
Theorem irrelevant_turn_is_stub (c : FocusConfig) (sim : R) (t : Z) :
  (sim <= 0)%R -> (0 < mid_threshold c)%R -> (0 < high_threshold c)%R ->
  blend sim (recency_weight c t) = 0%R
  /\ plan_of c (blend sim (recency_weight c t)) = PLACEHOLDER.
Proof.
  intros Hs Hm Hh.
  assert (E : blend sim (recency_weight c t) = 0%R).
  { unfold blend. rewrite Rmax_left by lra. lra. }
  split; [exact E|]. rewrite E. unfold plan_of.
  assert (H1 : Rgeb 0 (high_threshold c) = false)
    by (apply Rgeb_false; lra).
  assert (H2 : Rgeb 0 (mid_threshold c) = false)
    by (apply Rgeb_false; lra).
  now rewrite H1, H2.
Qed.

(** X17, witness: similarity -1 under the default configuration. *)
Lemma irrelevant_turn_is_stub_witness :
  (-1 <= 0)%R /\ (0 < mid_threshold default_config)%R
  /\ (0 < high_threshold default_config)%R
  /\ blend (-1) (recency_weight default_config 0) = 0%R
  /\ plan_of default_config (blend (-1) (recency_weight default_config 0))
     = PLACEHOLDER.
Proof.
  assert (H1 : (-1 <= 0)%R) by lra.
  assert (H2 : (0 < mid_threshold default_config)%R) by (cbn; lra).
  assert (H3 : (0 < high_threshold default_config)%R) by (cbn; lra).
  split; [exact H1|]. split; [exact H2|]. split; [exact H3|].
  exact (irrelevant_turn_is_stub default_config (-1) 0 H1 H2 H3).
Defined.

(* ================================================================== *)
(** * Further properties of [utils.py] *)
(* ================================================================== *)

Lemma truncate_loop_greedy (counter : TokenCounter) (target : Z)
      (toks : list str) :
  forall (out : list str) (used : Z),
  exists k,
    (k <= length toks)%nat
    /\ truncate_loop counter target toks out used
       = rev out ++ firstn k toks
    /\ (k = 0%nat
        \/ (used + words_cost counter (firstn k toks) <= target)%Z)
    /\ ((k < length toks)%nat ->
        (target < used + words_cost counter (firstn (S k) toks))%Z).
Proof.
  induction toks as [|w toks IH]; intros out used; simpl.
  - exists 0%nat. rewrite app_nil_r. repeat split; auto; lia.
  - destruct (used + count counter w >? target)%Z eqn:E.
    + exists 0%nat. simpl. rewrite app_nil_r.
      apply Z.gtb_lt in E.
      repeat split; auto; try lia.
    + destruct (IH (w :: out) (used + count counter w)%Z)
        as (k & Hk & Hres & Hcost & Hmax).
      exists (S k). simpl. simpl rev in Hres.
      rewrite <- app_assoc in Hres. simpl app in Hres.
      assert (Hle : (used + count counter w <= target)%Z).
      { destruct (Z.gtb_spec (used + count counter w) target);
          [discriminate | lia]. }
      split; [lia|]. split; [exact Hres|]. split.
      * right. destruct Hcost as [-> | Hcost]; simpl; lia.
      * intros Hlt. specialize (Hmax ltac:(lia)). simpl in Hmax. lia.
Qed.

Lemma words_cost_nonneg (counter : TokenCounter) (ws : list str) :
  (0 <= words_cost counter ws)%Z.
Proof.
  induction ws as [|w ws IH]; simpl; [lia|].
  pose proof (count_nonneg counter w). lia.
Qed.

(** X18: [truncate_to_tokens] is greedy on whole words, for any token
    counter: it keeps the longest prefix of the words of the text whose
    word-by-word costs sum to at most the target, joined by single
    spaces; the next word, if any, would exceed the target. *)
Theorem truncate_keeps_longest_prefix (counter : TokenCounter)
        (text : str) (target : Z) :
  exists k,
    (k <= length (split text))%nat
    /\ truncate_to_tokens text target counter
       = join [space] (firstn k (split text))
    /\ (words_cost counter (firstn k (split text)) <= Z.max 0 target)%Z
    /\ ((k < length (split text))%nat ->
        (target < words_cost counter (firstn (S k) (split text)))%Z).
Proof.
  unfold truncate_to_tokens.
  destruct (truncate_loop_greedy counter target (split text) [] 0%Z)
    as (k & Hk & Hres & Hcost & Hmax).
  exists k. simpl in Hres. rewrite Hres.
  repeat split; [exact Hk | | exact Hmax].
  destruct Hcost as [-> | Hcost]; [simpl; lia | lia].
Qed.

Lemma truncate_loop_whitespace (counter : TokenCounter) (target : Z)
      (toks : list str) :
  _enc counter = None -> Forall word toks ->
  forall out,
    truncate_loop counter target toks out (Z.of_nat (length out))
    = rev out ++ firstn (Z.to_nat target - length out) toks.
Proof.
  intros He Htoks. induction Htoks as [|w toks Hw _ IH]; intros out.
  - simpl. now rewrite firstn_nil, app_nil_r.
  - simpl truncate_loop. rewrite (count_word counter w He Hw).
    destruct (Z.of_nat (length out) + 1 >? target)%Z eqn:E.
    + apply Z.gtb_lt in E.
      replace (Z.to_nat target - length out)%nat with 0%nat by lia.
      simpl. now rewrite app_nil_r.
    + assert (Hle : (Z.of_nat (length out) + 1 <= target)%Z).
      { destruct (Z.gtb_spec (Z.of_nat (length out) + 1) target);
          [discriminate | lia]. }
      replace (Z.of_nat (length out) + 1)%Z
        with (Z.of_nat (length (w :: out))) by (simpl length; lia).
      rewrite IH. simpl rev. rewrite <- app_assoc. simpl.
      replace (Z.to_nat target - length out)%nat
        with (S (Z.to_nat target - S (length out))) by lia.
      reflexivity.
Qed.

Lemma Forall_firstn_words (k : nat) (ws : list str) :
  Forall word ws -> Forall word (firstn k ws).
Proof.
  revert k. induction ws as [|w ws IH]; intros k H.
  - now rewrite firstn_nil.
  - destruct k; simpl; [constructor|].
    inversion H; subst. constructor; auto.
Qed.

Lemma count_joined_words (counter : TokenCounter) (ws : list str) :
  _enc counter = None -> Forall word ws ->
  count counter (join [space] ws) = Z.of_nat (length ws).
Proof.
  intros He Hws. destruct ws as [|w ws']; [reflexivity|].
  assert (Hne : join [space] (w :: ws') <> []).
  { inversion Hws as [|? ? [Hw _] _]; subst.
    destruct w; [congruence|]. destruct ws'; simpl; discriminate. }
  rewrite count_whitespace by assumption.
  unfold fallback_count. rewrite split_join by assumption.
  simpl length. lia.
Qed.

(** X19: with the white-space counter [truncate_to_tokens] keeps
    exactly the first [target] words; the result costs at most the
    target (at most 0 for a negative target), and a text that fits
    (at least one word, cost at most the target) comes back with its
    white space normalised to single spaces. *)
Theorem truncate_whitespace_closed_form (counter : TokenCounter)
        (text : str) (target : Z) :
  _enc counter = None ->
  truncate_to_tokens text target counter
  = join [space] (firstn (Z.to_nat target) (split text))
  /\ (count counter (truncate_to_tokens text target counter)
      <= Z.max 0 target)%Z
  /\ ((Z.of_nat (length (split text)) <= target)%Z ->
      truncate_to_tokens text target counter
      = join [space] (split text)).
Proof.
  intros He.
  assert (E : truncate_to_tokens text target counter
              = join [space] (firstn (Z.to_nat target) (split text))).
  { unfold truncate_to_tokens.
    pose proof (truncate_loop_whitespace counter target (split text) He
                  (split_words text) []) as Hloop.
    simpl in Hloop. rewrite Hloop. now rewrite Nat.sub_0_r. }
  split; [exact E|]. split.
  - rewrite E, count_joined_words; [|exact He|].
    + rewrite length_firstn. lia.
    + apply Forall_firstn_words, split_words.
  - intros Hfit. rewrite E. f_equal. apply firstn_all2. lia.
Qed.

(** X19, witness: a text of four words against a target of two. *)
Lemma truncate_whitespace_closed_form_witness :
  _enc whitespace_counter = None
  /\ truncate_to_tokens (lit "a b  c d") 2 whitespace_counter
     = join [space] (firstn (Z.to_nat 2) (split (lit "a b  c d")))
  /\ (count whitespace_counter
            (truncate_to_tokens (lit "a b  c d") 2 whitespace_counter)
      <= Z.max 0 2)%Z
  /\ ((Z.of_nat (length (split (lit "a b  c d"))) <= 2)%Z ->
      truncate_to_tokens (lit "a b  c d") 2 whitespace_counter
      = join [space] (split (lit "a b  c d"))).
Proof.
  split; [reflexivity|].
  apply (truncate_whitespace_closed_form whitespace_counter).
  reflexivity.
Defined.

Lemma drop_while_suffix (p : N -> bool) (s : str) :
  exists a, s = a ++ drop_while p s /\ forallb p a = true.
Proof.
  induction s as [|c s (a & Hs & Ha)]; simpl.
  - now exists [].
  - destruct (p c) eqn:E.
    + exists (c :: a). simpl. rewrite E, Ha. now rewrite <- Hs.
    + now exists [].
Qed.

Lemma drop_while_head (p : N -> bool) (s : str) (c : N) (t : str) :
  drop_while p s = c :: t -> p c = false.
Proof.
  induction s as [|d s IH]; simpl; [discriminate|].
  destruct (p d) eqn:E; [exact IH|].
  intros H. inversion H; subst. exact E.
Qed.

Lemma drop_while_fixed (p : N -> bool) (s : str) :
  match s with [] => True | c :: _ => p c = false end ->
  drop_while p s = s.
Proof. destruct s as [|c s]; simpl; [auto | now intros ->]. Qed.

(** What [strip_chars] returns: a segment of the text, between two runs
    of stripped characters, that neither begins nor ends with one. *)
Lemma strip_chars_shape (p : N -> bool) (s : str) :
  (exists a b, s = a ++ strip_chars p s ++ b
               /\ forallb p a = true /\ forallb p b = true)
  /\ (forall c t, strip_chars p s = c :: t -> p c = false)
  /\ (forall t c, strip_chars p s = t ++ [c] -> p c = false)
  /\ strip_chars p (strip_chars p s) = strip_chars p s.
Proof.
  unfold strip_chars.
  destruct (drop_while_suffix p s) as (a & Hs & Ha).
  set (t := drop_while p s) in *.
  destruct (drop_while_suffix p (rev t)) as (b' & Ht & Hb).
  set (u := drop_while p (rev t)) in *.
  assert (Et : t = rev u ++ rev b').
  { rewrite <- (rev_involutive t), Ht, rev_app_distr. reflexivity. }
  assert (Hlast : forall r c, rev u = r ++ [c] -> p c = false).
  { intros r c Hr. apply (f_equal (@rev N)) in Hr.
    rewrite rev_involutive, rev_app_distr in Hr. simpl in Hr.
    apply (drop_while_head p (rev t) c (rev r)). exact Hr. }
  assert (Hfirst : forall c r, rev u = c :: r -> p c = false).
  { intros c r Hr. apply (drop_while_head p s c (r ++ rev b')).
    fold t. rewrite Et, Hr. reflexivity. }
  split; [|split; [|split]].
  - exists a, (rev b'). split; [now rewrite <- Et|].
    split; [exact Ha | now rewrite forallb_reverse].
  - exact Hfirst.
  - exact Hlast.
  - rewrite (drop_while_fixed p (rev u)).
    + rewrite rev_involutive. unfold u at 1.
      rewrite (drop_while_fixed p (drop_while p (rev t))); [reflexivity|].
      destruct (drop_while p (rev t)) as [|c r] eqn:E; [exact I|].
      eapply drop_while_head; exact E.
    + destruct (rev u) as [|c r] eqn:E; [exact I|].
      eapply Hfirst; reflexivity.
Qed.

Lemma segment_of_solid (p : N -> bool) (a s b : str) :
  forallb (fun c => negb (p c)) (a ++ s ++ b) = true ->
  forallb (fun c => negb (p c)) s = true.
Proof.
  rewrite !forallb_app. intros H.
  apply andb_prop in H. destruct H as [_ H].
  apply andb_prop in H. tauto.
Qed.

(** X20: every token of [simple_tokenize] is non-empty, contains no
    white space, and neither begins nor ends with one of the stripped
    punctuation characters. *)
Theorem tokens_are_clean (py_lower : str -> str) (text : str) :
  Forall (fun t => t <> []
                   /\ forallb (fun c => negb (is_space c)) t = true
                   /\ (forall c r, t = c :: r -> is_punct c = false)
                   /\ (forall r c, t = r ++ [c] -> is_punct c = false))
         (simple_tokenize py_lower text).
Proof.
  unfold simple_tokenize. apply Forall_forall. intros t Ht.
  apply filter_In in Ht. destruct Ht as [Hin Htruthy].
  apply in_map_iff in Hin. destruct Hin as (w & <- & Hw).
  pose proof (split_words (py_lower text)) as Hwords.
  rewrite Forall_forall in Hwords. destruct (Hwords w Hw) as [_ Hsolid].
  destruct (strip_chars_shape is_punct w)
    as ((a & b & Hseg & _ & _) & Hfirst & Hlast & _).
  repeat split.
  - intros E. rewrite E in Htruthy. discriminate.
  - rewrite Hseg in Hsolid.
    exact (segment_of_solid is_space a _ b Hsolid).
  - exact Hfirst.
  - exact Hlast.
Qed.

Lemma last_of_snoc (l1 l2 l : str) (c ch : N) :
  l1 ++ c :: l2 = l ++ [ch] -> ~ In c l -> l2 = [].
Proof.
  intros E Hc. destruct l2 as [|y l2']; [reflexivity|].
  destruct (@exists_last N (y :: l2') ltac:(discriminate)) as (l3 & z & E3).
  rewrite E3 in E. exfalso. apply Hc.
  rewrite app_comm_cons, app_assoc in E.
  apply app_inj_tail in E. destruct E as [E _].
  rewrite <- E. apply in_or_app. right. now left.
Qed.

(** What a sentence of [split_sentences] looks like. *)
Lemma sentence_shape (x : str) (ch : N) (tail : list N) :
  Forall (fun c => is_terminator c = false) x ->
  tail = [] \/ tail = [ch] ->
  strip (x ++ tail) <> [] ->
  strip (strip (x ++ tail)) = strip (x ++ tail)
  /\ forall pre c post,
       strip (x ++ tail) = pre ++ c :: post ->
       is_terminator c = true -> post = [] /\ c <> newline.
Proof.
  intros Hx Htail Hne.
  destruct (strip_chars_shape is_space (x ++ tail))
    as ((a & b & Hseg & _ & _) & _ & Hlast & Hidem).
  fold (strip (x ++ tail)) in *.
  split; [exact Hidem|].
  intros pre c post Hs Hc.
  assert (Hnotin : ~ In c x).
  { intros Hin. rewrite Forall_forall in Hx.
    specialize (Hx c Hin). congruence. }
  assert (Hpost : post ++ b = []).
  { rewrite Hs in Hseg. destruct Htail as [-> | ->].
    - exfalso. apply Hnotin. rewrite app_nil_r in Hseg. rewrite Hseg.
      apply in_or_app. right. apply in_or_app. left.
      apply in_or_app. right. now left.
    - apply (last_of_snoc (a ++ pre) (post ++ b) x c ch); [|exact Hnotin].
      rewrite Hseg. now rewrite <- !app_assoc. }
  apply app_eq_nil in Hpost. destruct Hpost as [-> _].
  split; [reflexivity|].
  intros ->. specialize (Hlast pre newline Hs). discriminate.
Qed.

Lemma split_sentences_loop_shape (P : str -> Prop) (text : str) :
  (forall x ch tail,
      Forall (fun c => is_terminator c = false) x ->
      tail = [] \/ tail = [ch] ->
      strip (x ++ tail) <> [] -> P (strip (x ++ tail))) ->
  forall buff parts,
    Forall (fun c => is_terminator c = false) buff ->
    Forall P parts ->
    Forall P (split_sentences_loop text buff parts).
Proof.
  intros HP. induction text as [|ch text IH]; intros buff parts Hb Hp.
  - simpl. destruct buff as [|c buff'] eqn:Eb; [now apply Forall_rev|].
    rewrite <- Eb in *.
    destruct (strip (rev buff)) as [|c0 s0] eqn:Es; simpl;
      [now apply Forall_rev|].
    change (rev parts ++ [c0 :: s0]) with (rev ((c0 :: s0) :: parts)).
    apply Forall_rev. constructor; [|exact Hp].
    rewrite <- Es. rewrite <- (app_nil_r (rev buff)).
    apply (HP (rev buff) 0%N []); [now apply Forall_rev | now left |].
    rewrite app_nil_r, Es. discriminate.
  - simpl. destruct (is_terminator ch) eqn:Et.
    + apply IH; [constructor|].
      destruct (strip (rev buff ++ [ch])) as [|c0 s0] eqn:Es; simpl;
        [exact Hp|].
      constructor; [|exact Hp].
      rewrite <- Es.
      apply (HP (rev buff) ch [ch]); [now apply Forall_rev | now right |].
      rewrite Es. discriminate.
    + apply IH; [now constructor | exact Hp].
Qed.

(** X21: every sentence of [split_sentences] is non-empty and has no
    leading or trailing white space; it contains no line feed, and a
    full stop, exclamation mark or question mark can only be its last
    character. *)
Theorem sentences_are_trimmed (text : str) :
  Forall (fun s => s <> [] /\ strip s = s
                   /\ forall pre c post,
                        s = pre ++ c :: post ->
                        is_terminator c = true ->
                        post = [] /\ c <> newline)
         (split_sentences text).
Proof.
  unfold split_sentences.
  apply split_sentences_loop_shape; [|constructor|constructor].
  intros x ch tail Hx Htail Hne.
  destruct (sentence_shape x ch tail Hx Htail Hne) as [Hidem Hterm].
  auto.
Qed.

Lemma fold_left_Rplus (l : list R) (a : R) :
  fold_left Rplus l a = (a + fold_left Rplus l 0)%R.
Proof.
  revert a. induction l as [|x l IH]; intros a; simpl; [lra|].
  rewrite (IH (a + x)%R), (IH (0 + x)%R). lra.
Qed.

Lemma sum_squares_cons (x : R) (v : list R) :
  sum_squares (x :: v) = (x * x + sum_squares v)%R.
Proof.
  unfold sum_squares. simpl. rewrite fold_left_Rplus. lra.
Qed.

Lemma sum_squares_nonneg (v : list R) : (0 <= sum_squares v)%R.
Proof.
  induction v as [|x v IH]; [unfold sum_squares; simpl; lra|].
  rewrite sum_squares_cons. nra.
Qed.

Lemma sum_squares_zero (v : list R) :
  sum_squares v = 0%R -> Forall (eq 0%R) v.
Proof.
  induction v as [|x v IH]; intros H; constructor;
    rewrite sum_squares_cons in H; pose proof (sum_squares_nonneg v).
  - nra.
  - apply IH. nra.
Qed.

Lemma sum_squares_scaled (s : R) (v : list R) :
  s <> 0%R ->
  sum_squares (map (fun x => (x / s)%R) v)
  = (sum_squares v / (s * s))%R.
Proof.
  intros Hs. induction v as [|x v IH].
  - unfold sum_squares. simpl. field. exact Hs.
  - simpl map. rewrite !sum_squares_cons, IH. field. exact Hs.
Qed.

Lemma cosine_self (v : list R) : cosine v v = sum_squares v.
Proof.
  unfold cosine, sum_squares. f_equal.
  induction v as [|x v IH]; simpl; [reflexivity | now rewrite IH].
Qed.

Lemma divide_by_one (v : list R) : map (fun x => (x / 1)%R) v = v.
Proof.
  induction v as [|x v IH]; simpl; [reflexivity|].
  rewrite IH. f_equal. field.
Qed.

Lemma l2_normalize_zero (v : list R) :
  sum_squares v = 0%R -> l2_normalize_inplace v = v.
Proof.
  intros H. unfold l2_normalize_inplace. rewrite H, sqrt_0.
  destruct (Req_dec_T 0 0) as [_|Hne]; [|congruence].
  apply divide_by_one.
Qed.

Lemma l2_normalize_nonzero (v : list R) :
  sum_squares v <> 0%R -> sum_squares (l2_normalize_inplace v) = 1%R.
Proof.
  intros H. pose proof (sum_squares_nonneg v) as Hnn.
  assert (Hpos : (0 < sqrt (sum_squares v))%R) by (apply sqrt_lt_R0; lra).
  unfold l2_normalize_inplace.
  destruct (Req_dec_T (sqrt (sum_squares v)) 0) as [E|_]; [lra|].
  rewrite sum_squares_scaled by lra.
  rewrite sqrt_sqrt by lra. field. exact H.
Qed.

(** X22: [l2_normalize_inplace] keeps the length; a vector with a
    non-zero entry leaves with squared norm 1, so that its [cosine] with
    itself is 1; the zero vector is left as it is; and normalising twice
    is the same as normalising once. *)
Theorem l2_normalize_unit (v : list R) :
  length (l2_normalize_inplace v) = length v
  /\ (sum_squares v = 0%R ->
      Forall (eq 0%R) v /\ l2_normalize_inplace v = v)
  /\ (sum_squares v <> 0%R ->
      sum_squares (l2_normalize_inplace v) = 1%R
      /\ cosine (l2_normalize_inplace v) (l2_normalize_inplace v) = 1%R)
  /\ l2_normalize_inplace (l2_normalize_inplace v)
     = l2_normalize_inplace v.
Proof.
  split; [unfold l2_normalize_inplace; apply length_map|].
  split; [intros H; split;
          [now apply sum_squares_zero | now apply l2_normalize_zero]|].
  split.
  - intros H. rewrite cosine_self. split; now apply l2_normalize_nonzero.
  - destruct (Req_dec_T (sum_squares v) 0) as [E|E].
    + now rewrite !(l2_normalize_zero v E).
    + pose proof (l2_normalize_nonzero v E) as H1.
      unfold l2_normalize_inplace at 1. rewrite H1, sqrt_1.
      destruct (Req_dec_T 1 0) as [E1|_]; [lra|].
      apply divide_by_one.
Qed.





Lemma py_list_add_empty (idx : Z) (d : R) : py_list_add [] idx d = None.
Proof.
  unfold py_list_add. simpl length. simpl Z.of_nat.
  destruct (idx <? 0)%Z eqn:E.
  - apply Z.ltb_lt in E.
    destruct (0 <=? idx + 0)%Z eqn:E1; [apply Z.leb_le in E1; lia|].
    reflexivity.
  - destruct (idx <? 0)%Z eqn:E2; [discriminate|].
    now rewrite andb_false_r.
Qed.

(** X24: the edge cases of [HashingEmbedder(dim).encode]: a text
    without tokens is encoded as the zero vector of [max(dim, 0)]
    entries; with [dim <= 0] any text with a token raises (division by
    zero for [dim = 0], an index error on the empty vector for
    [dim < 0]). *)
Theorem hashing_encode_edges (py_hash : str -> Z) (py_lower : str -> str)
        (dim0 : Z) (text : str) :
  (simple_tokenize py_lower text = [] ->
   hashing_encode py_hash py_lower dim0 text
   = Some (repeat 0%R (Z.to_nat dim0)))
  /\ (simple_tokenize py_lower text <> [] -> (dim0 <= 0)%Z ->
      hashing_encode py_hash py_lower dim0 text = None).
Proof.
  unfold hashing_encode. split.
  - intros ->. simpl. f_equal. apply l2_normalize_zero.
    generalize (Z.to_nat dim0) as n.
    induction n as [|n IH]; [unfold sum_squares; reflexivity|].
    simpl repeat. rewrite sum_squares_cons, IH. lra.
  - intros Hne Hd. destruct (simple_tokenize py_lower text) as [|tok toks];
      [congruence|].
    simpl hashing_loop. destruct (dim0 =? 0)%Z eqn:E; [reflexivity|].
    apply Z.eqb_neq in E.
    replace (Z.to_nat dim0) with 0%nat by lia. simpl repeat.
    now rewrite py_list_add_empty.
Qed.

(* ================================================================== *)
(** * Further properties of [HeuristicCompressor] *)
(* ================================================================== *)

Lemma split_from_open (t cur : str) : cur <> [] -> split_from cur t <> [].
Proof.
  revert cur. induction t as [|c t IH]; intros cur Hc; simpl.
  - destruct cur; [congruence | discriminate].
  - destruct (is_space c).
    + destruct cur; [congruence | discriminate].
    + apply IH. discriminate.
Qed.

Lemma trimmed_has_word (s : str) : strip s <> [] -> split (strip s) <> [].
Proof.
  intros Hne.
  destruct (strip_chars_shape is_space s) as (_ & Hfirst & _).
  fold (strip s) in Hfirst.
  destruct (strip s) as [|c r] eqn:E; [congruence|].
  unfold split. simpl. rewrite (Hfirst c r eq_refl).
  apply split_from_open. discriminate.
Qed.

Lemma sentences_have_words (text : str) :
  Forall (fun s => split s <> []) (split_sentences text).
Proof.
  unfold split_sentences.
  apply split_sentences_loop_shape; [|constructor|constructor].
  intros x ch tail _ _ Hne. now apply trimmed_has_word.
Qed.

Lemma count_with_words (counter : TokenCounter) (s : str) :
  _enc counter = None -> split s <> [] ->
  count counter s = Z.of_nat (length (split s)) /\ s <> [].
Proof.
  intros He Hs. assert (Hne : s <> []) by (intros ->; now apply Hs).
  split; [|exact Hne].
  rewrite count_whitespace by assumption. unfold fallback_count.
  destruct (split s); [congruence | simpl length; lia].
Qed.

Lemma split_joined (out : list str) :
  split (join [space] out) = flat_map split out.
Proof.
  induction out as [|s out IH]; [reflexivity|].
  destruct out as [|s2 out'].
  - simpl. now rewrite app_nil_r.
  - change (join [space] (s :: s2 :: out'))
      with (s ++ space :: join [space] (s2 :: out')).
    unfold split at 1. rewrite split_from_space by apply is_space_space.
    fold (split s). fold (split (join [space] (s2 :: out'))).
    now rewrite IH.
Qed.

Lemma words_cost_app (counter : TokenCounter) (a b : list str) :
  words_cost counter (a ++ b)
  = (words_cost counter a + words_cost counter b)%Z.
Proof.
  induction a as [|w a IH]; simpl; [reflexivity | rewrite IH; lia].
Qed.

Lemma count_joined_sentences (counter : TokenCounter) (out : list str) :
  _enc counter = None -> Forall (fun s => split s <> []) out ->
  count counter (join [space] out) = words_cost counter out
  /\ (out <> [] -> join [space] out <> []).
Proof.
  intros He Hout.
  assert (Hlen : Z.of_nat (length (flat_map split out))
                 = words_cost counter out).
  { induction Hout as [|s out Hs _ IH]; [reflexivity|].
    simpl. rewrite length_app, Nat2Z.inj_add, IH.
    destruct (count_with_words counter s He Hs) as [-> _]. reflexivity. }
  destruct Hout as [|s out Hs Hrest]; [split; [reflexivity|congruence]|].
  assert (Hne : join [space] (s :: out) <> []).
  { destruct (count_with_words counter s He Hs) as [_ Hsne].
    destruct s; [congruence|]. destruct out; simpl; discriminate. }
  split; [|intros _; exact Hne].
  rewrite count_whitespace by assumption.
  unfold fallback_count. rewrite split_joined, Hlen.
  simpl words_cost.
  destruct (count_with_words counter s He Hs) as [Hc _].
  pose proof (words_cost_nonneg counter out).
  assert (0 < length (split s))%nat
    by (destruct (split s); [congruence | simpl; lia]).
  lia.
Qed.

Lemma select_loop_sound (counter : TokenCounter) (target : Z)
      (scored : list (R * str)) :
  forall out used,
    used = words_cost counter (rev out) -> (used <= target)%Z ->
    (words_cost counter (select_loop counter target scored out used)
     <= target)%Z
    /\ incl (select_loop counter target scored out used)
            (rev out ++ map snd scored).
Proof.
  induction scored as [|[sc s] scored IH]; intros out used Hu Hle; simpl.
  - rewrite app_nil_r. split; [lia | apply incl_refl].
  - destruct (used + count counter s >? target)%Z eqn:E.
    + destruct (IH out used Hu Hle) as [Hc Hi]. split; [exact Hc|].
      intros x Hx. specialize (Hi x Hx). apply in_app_or in Hi.
      apply in_or_app. destruct Hi; [now left | right; now right].
    + assert (Hfit : (used + count counter s <= target)%Z).
      { destruct (Z.gtb_spec (used + count counter s) target);
          [discriminate | lia]. }
      assert (Hu' : (used + count counter s)%Z
                    = words_cost counter (rev (s :: out))).
      { simpl rev. rewrite words_cost_app. simpl. lia. }
      destruct (used + count counter s >=? target)%Z.
      * split; [simpl rev in Hu' |- *; rewrite <- Hu'; exact Hfit|].
        simpl rev. intros x Hx. apply in_app_or in Hx.
        apply in_or_app. destruct Hx as [Hx|[<-|[]]];
          [now left | right; now left].
      * destruct (IH (s :: out) _ Hu' Hfit) as [Hc Hi].
        split; [exact Hc|].
        intros x Hx. specialize (Hi x Hx). simpl rev in Hi.
        rewrite <- app_assoc in Hi. apply in_app_or in Hi.
        apply in_or_app. destruct Hi as [Hi|Hi]; [now left | now right].
Qed.

Lemma truncate_cost (counter : TokenCounter) (text : str) (target : Z) :
  _enc counter = None ->
  (count counter (truncate_to_tokens text target counter)
   <= Z.max 0 target)%Z
  /\ (split text <> [] -> (1 <= target)%Z ->
      truncate_to_tokens text target counter <> []).
Proof.
  intros He.
  assert (E : truncate_to_tokens text target counter
              = join [space] (firstn (Z.to_nat target) (split text))).
  { unfold truncate_to_tokens.
    pose proof (truncate_loop_whitespace counter target (split text) He
                  (split_words text) []) as Hloop.
    simpl in Hloop. rewrite Hloop. now rewrite Nat.sub_0_r. }
  rewrite E. split.
  - rewrite count_joined_words;
      [|exact He | apply Forall_firstn_words, split_words].
    rewrite length_firstn. lia.
  - intros Hw Ht. pose proof (split_words text) as Hall.
    destruct (split text) as [|w ws]; [congruence|].
    replace (Z.to_nat target) with (S (Z.to_nat target - 1)) by lia.
    simpl firstn. inversion Hall as [|? ? [Hwne _] _]; subst.
    destruct w; [congruence|].
    destruct (firstn (Z.to_nat target - 1) ws); simpl; discriminate.
Qed.

Lemma scored_sentences (py_lower : str -> str) (hint_toks : list str)
      (sentences : list str) (idx : Z) :
  map snd (score_sentences py_lower hint_toks idx sentences) = sentences.
Proof.
  revert idx. induction sentences as [|s rest IH]; intros idx; simpl;
    [reflexivity | now rewrite IH].
Qed.

(** What the selection of [heuristic_compress] returns when the text
    does not fit: sentences of the text whose costs sum to at most the
    target. *)
Lemma selection_sound (py_lower : str -> str) (counter : TokenCounter)
      (hint_toks : list str) (sentences : list str) (target : Z) :
  (0 <= target)%Z ->
  let out :=
    select_loop counter target
      (stable_sort (fun y x => Rltb (fst x) (fst y))
                   (score_sentences py_lower hint_toks 0 sentences))
      [] 0 in
  (words_cost counter out <= target)%Z /\ incl out sentences.
Proof.
  intros Ht out.
  destruct (select_loop_sound counter target
              (stable_sort (fun y x => Rltb (fst x) (fst y))
                 (score_sentences py_lower hint_toks 0 sentences))
              [] 0%Z eq_refl Ht) as [Hc Hi].
  split; [exact Hc|].
  intros x Hx. specialize (Hi x Hx). simpl in Hi.
  apply in_map_iff in Hi. destruct Hi as (e & <- & He).
  eapply Permutation_in in He; [|apply stable_sort_perm].
  rewrite <- (scored_sentences py_lower hint_toks sentences 0).
  now apply in_map.
Qed.

Lemma heuristic_compress_cost (py_lower : str -> str)
        (counter : TokenCounter) (text : str) (target : Z)
        (hint : option str) :
  _enc counter = None -> (0 <= target)%Z ->
  (count counter (heuristic_compress py_lower counter text target hint)
   <= target)%Z
  /\ (count counter (heuristic_compress py_lower counter text target hint)
      <= count counter text)%Z.
Proof.
  intros He Ht.
  assert (Hmain :
    (count counter text <= target)%Z
    /\ heuristic_compress py_lower counter text target hint = text
    \/ (target < count counter text)%Z
       /\ (count counter
                 (heuristic_compress py_lower counter text target hint)
           <= target)%Z).
  { unfold heuristic_compress.
    destruct (count counter text <=? target)%Z eqn:E.
    - left. apply Z.leb_le in E. auto.
    - right. apply Z.leb_gt in E. split; [exact E|].
      pose proof (sentences_have_words text) as Hsent.
      destruct (split_sentences text) as [|first rest] eqn:Es.
      + destruct (truncate_cost counter text target He) as [Hc _]. lia.
      + set (hint_toks := distinct (simple_tokenize py_lower
               match hint with
               | Some h => if truthy h then h else []
               | None => []
               end)).
        destruct (selection_sound py_lower counter hint_toks
                    (first :: rest) target Ht) as [Hcost Hincl].
        cbv zeta in Hcost, Hincl.
        destruct (select_loop counter target
                    (stable_sort (fun y x => Rltb (fst x) (fst y))
                       (score_sentences py_lower hint_toks 0
                          (first :: rest))) [] 0) as [|s out] eqn:Eo.
        * destruct (truncate_cost counter first target He) as [Hc _]. lia.
        * destruct (count_joined_sentences counter (s :: out) He)
            as [Hj _].
          { apply Forall_forall. intros x Hx.
            rewrite Forall_forall in Hsent. apply Hsent. now apply Hincl. }
          rewrite Hj. exact Hcost. }
  destruct Hmain as [[Hfit ->] | [Hbig Hle]]; lia.
Qed.

(** X25: with the white-space counter the heuristic compressor meets
    its target: for a non-negative target the result costs at most the
    target, and it never costs more than the text it was given. *)
Theorem heuristic_compress_meets_target (py_lower : str -> str)
        (counter : TokenCounter) (text : str) (target : Z)
        (hint : option str) :
  _enc counter = None -> (0 <= target)%Z ->
  (count counter (heuristic_compress py_lower counter text target hint)
   <= target)%Z
  /\ (count counter (heuristic_compress py_lower counter text target hint)
      <= count counter text)%Z.
Proof. apply heuristic_compress_cost. Qed.

(** X25, witness: a text of two sentences against a target of three
    tokens. *)
Lemma heuristic_compress_meets_target_witness :
  _enc whitespace_counter = None /\ (0 <= 3)%Z
  /\ (count whitespace_counter
            (heuristic_compress Fixtures.ascii_lower whitespace_counter
               (lit "Plan a trip. Keep it short and cheap.") 3
               (Some (lit "trip")))
      <= 3)%Z
  /\ (count whitespace_counter
            (heuristic_compress Fixtures.ascii_lower whitespace_counter
               (lit "Plan a trip. Keep it short and cheap.") 3
               (Some (lit "trip")))
      <= count whitespace_counter
               (lit "Plan a trip. Keep it short and cheap."))%Z.
Proof.
  split; [reflexivity|]. split; [lia|].
  apply heuristic_compress_meets_target; [reflexivity | lia].
Defined.

(** X26: with the white-space counter and a target of at least one
    token the heuristic compressor returns the empty string only for the
    empty text. *)
Theorem heuristic_compress_empty_iff (py_lower : str -> str)
        (counter : TokenCounter) (text : str) (target : Z)
        (hint : option str) :
  _enc counter = None -> (1 <= target)%Z ->
  (heuristic_compress py_lower counter text target hint = []
   <-> text = []).
Proof.
  intros He Ht. split.
  - unfold heuristic_compress.
    destruct (count counter text <=? target)%Z eqn:E; [auto|].
    apply Z.leb_gt in E. intros Hres. exfalso.
    pose proof (sentences_have_words text) as Hsent.
    destruct (split_sentences text) as [|first rest] eqn:Es.
    + destruct (truncate_cost counter text target He) as [_ Hne].
      apply Hne; [|exact Ht|exact Hres].
      intros Hsplit.
      assert (Htext : text <> [])
        by (intros ->; rewrite count_empty in E; lia).
      rewrite count_whitespace in E by assumption.
      unfold fallback_count in E. rewrite Hsplit in E.
      simpl in E. lia.
    + set (hint_toks := distinct (simple_tokenize py_lower
             match hint with
             | Some h => if truthy h then h else []
             | None => []
             end)) in *.
      destruct (selection_sound py_lower counter hint_toks
                  (first :: rest) target ltac:(lia)) as [_ Hincl].
      cbv zeta in Hincl.
      destruct (select_loop counter target
                  (stable_sort (fun y x => Rltb (fst x) (fst y))
                     (score_sentences py_lower hint_toks 0
                        (first :: rest))) [] 0) as [|s out] eqn:Eo.
      * destruct (truncate_cost counter first target He) as [_ Hne].
        apply Hne; [|exact Ht|exact Hres].
        inversion Hsent; assumption.
      * destruct (count_joined_sentences counter (s :: out) He)
          as [_ Hne].
        { apply Forall_forall. intros x Hx.
          rewrite Forall_forall in Hsent. apply Hsent. now apply Hincl. }
        apply Hne; [discriminate | exact Hres].
  - intros ->. apply heuristic_compress_fits. rewrite count_empty. lia.
Qed.

(** X26, witness: the empty text against a target of one token. *)
Lemma heuristic_compress_empty_iff_witness :
  _enc whitespace_counter = None /\ (1 <= 1)%Z
  /\ (heuristic_compress Fixtures.ascii_lower whitespace_counter [] 1
                         (Some (lit "hello")) = []
      <-> @nil N = []).
Proof.
  split; [reflexivity|]. split; [lia|].
  apply heuristic_compress_empty_iff; [reflexivity | lia].
Defined.

(* ================================================================== *)
(** * Further properties of the memo and of the stubs *)
(* ================================================================== *)

(** X11: a non-empty memoized compressed text is reused: a later call,
    whatever its query, budget and preamble, does not call the compressor
    for that turn and leaves the stored text as it is. *)
Theorem nonempty_memo_reused (m : FocusManager) (q : str) (b : Z)
        (p : option str) (k : nat) (it : MemoryItem) (x : N) (s : str) :
  reachable m -> nth_error (_items m) k = Some it ->
  compressed_text it = Some (x :: s) ->
  exists r it',
    build_context m q b p = Some r
    /\ ~ In (id it) (compressor_calls (r_trace r))
    /\ nth_error (_items (r_self r)) k = Some it'
    /\ id it' = id it /\ compressed_text it' = Some (x :: s).
Proof. apply memo_reused. Qed.

(** X11, witness: the memo of [memo_manager] is not recomputed. *)
Lemma nonempty_memo_reused_witness :
  reachable Fixtures.memo_manager
  /\ nth_error (_items Fixtures.memo_manager) 0 = Some Fixtures.memo_turn
  /\ compressed_text Fixtures.memo_turn = Some (104%N :: lit "ello")
  /\ exists r it',
      build_context Fixtures.memo_manager (lit "hello again") 10 None
      = Some r
      /\ ~ In (id Fixtures.memo_turn) (compressor_calls (r_trace r))
      /\ nth_error (_items (r_self r)) 0 = Some it'
      /\ id it' = id Fixtures.memo_turn
      /\ compressed_text it' = Some (104%N :: lit "ello").
Proof.
  split; [exact memo_manager_reachable|].
  split; [reflexivity|]. split; [reflexivity|].
  exact (nonempty_memo_reused Fixtures.memo_manager (lit "hello again") 10 None 0
           Fixtures.memo_turn 104%N (lit "ello") memo_manager_reachable
           eq_refl eq_refl).
Defined.

Lemma pack_item_memo_cases (m : FocusManager) (q : str)
      (desired : Fidelity) (it : MemoryItem) (p : Pack) (c : Counters) :
  compressed_text (s_item (pack_item m q desired it p c))
  = compressed_text it
  \/ compressed_text (s_item (pack_item m q desired it p c))
     = Some (compress_item m q it).
Proof.
  unfold pack_item, try_compressed, try_stub, compressed_or_compress,
    try_add.
  destruct (compressed_text it) as [[|x s]|] eqn:E;
    destruct desired;
    repeat match goal with
           | |- context [if ?b then _ else _] => destruct b
           end; cbn; rewrite ?E; auto.
Qed.

(** X28: with the default compressor and the white-space counter a
    memoized compressed text never costs more than the turn itself: in a
    manager produced by the interface every stored [compressed_text]
    costs at most [token_len] tokens. *)
Theorem memo_never_costlier (m : FocusManager) (py_lower : str -> str) :
  reachable m -> _enc (tc m) = None ->
  compressor m = HeuristicCompressor py_lower (tc m) ->
  Forall (fun it => forall c, compressed_text it = Some c ->
                              (count (tc m) c <= token_len it)%Z)
         (_items m).
Proof.
  intros Hr. induction Hr as [lw e t c g | m now r c Hr IH
                              | m q b p r Hr IH H]; intros He Hc.
  - constructor.
  - unfold add_message in *. cbn [fst _items tc compressor] in *.
    apply Forall_app. split; [now apply IH|].
    repeat constructor. cbn. discriminate.
  - destruct (build_context_store m q b p r H)
      as (_ & Htc & _ & Hcomp & _).
    rewrite Htc in *. rewrite Hcomp in Hc. specialize (IH He Hc).
    pose proof (reachable_well_formed m Hr) as (Hlen & _).
    destruct (build_context_some m q b p r H)
      as (l & Hl & _ & _ & Hself & _).
    rewrite Hself. cbn [_items].
    set (P := fun it => token_len it = count (tc m) (content it)
                        /\ forall c, compressed_text it = Some c ->
                                     (count (tc m) c <= token_len it)%Z).
    assert (Hscored : Forall P (map snd (scored_of m q))).
    { unfold scored_of.
      generalize (Z.of_nat (length (_items m))) as n.
      generalize 0%Z as idx. clear - IH Hlen.
      induction IH as [|it turns Hit _ IHt]; intros idx n;
        simpl; constructor.
      - inversion Hlen; subst. split; assumption.
      - inversion Hlen; subst. now apply IHt. }
    assert (Hfinal : Forall P (l_store l)).
    { revert Hl.
      apply pack_loop_preserves with (P := fun l => Forall P (l_store l)).
      - intros l0 pos it desired Hin _ Hst. unfold loop_step.
        cbn [l_store]. apply store_set_Forall; [exact Hst|].
        apply sorted_by_id_members in Hin.
        rewrite Forall_forall in Hscored.
        destruct (Hscored it Hin) as [Hl0 Hm0].
        destruct (pack_item_evolves m q desired it (l_pack l0)
                    (l_counters l0)) as [(_ & _ & Hct & _ & Htl) _].
        split; [rewrite <- Htl, <- Hct; exact Hl0|].
        intros c0 Hc0. rewrite <- Htl.
        destruct (pack_item_memo_cases m q desired it (l_pack l0)
                    (l_counters l0)) as [E|E]; rewrite E in Hc0.
        + now apply Hm0.
        + inversion Hc0; subst c0. unfold compress_item.
          rewrite Hc. cbn [compress HeuristicCompressor].
          rewrite Hl0.
          apply heuristic_compress_cost; [exact He | lia].
      - exact Hscored. }
    eapply Forall_impl; [|exact Hfinal]. intros it [_ Hm0]. exact Hm0.
Qed.

(** X28, witness: [memo_manager], whose turn has a memo. *)
Lemma memo_never_costlier_witness :
  reachable Fixtures.memo_manager
  /\ _enc (tc Fixtures.memo_manager) = None
  /\ compressor Fixtures.memo_manager
     = HeuristicCompressor Fixtures.ascii_lower (tc Fixtures.memo_manager)
  /\ Forall (fun it => forall c, compressed_text it = Some c ->
                                 (count (tc Fixtures.memo_manager) c
                                  <= token_len it)%Z)
            (_items Fixtures.memo_manager).
Proof.
  split; [exact memo_manager_reachable|].
  split; [reflexivity|]. split; [reflexivity|].
  apply (memo_never_costlier Fixtures.memo_manager Fixtures.ascii_lower);
    [exact memo_manager_reachable | reflexivity | reflexivity].
Defined.

Lemma digits_fuel_digits (fuel : nat) :
  forall (n : N) (acc : str),
    Forall (fun c => (48 <= c <= 57)%N) acc ->
    Forall (fun c => (48 <= c <= 57)%N) (digits_fuel fuel n acc).
Proof.
  induction fuel as [|fuel IH]; intros n acc Hacc; simpl; [exact Hacc|].
  assert (Hd : Forall (fun c => (48 <= c <= 57)%N)
                      ((48 + n mod 10)%N :: acc)).
  { constructor; [|exact Hacc].
    pose proof (N.mod_upper_bound n 10 ltac:(discriminate)) as Hm.
    revert Hm. generalize (n mod 10)%N as d. intros d Hm. lia. }
  destruct (n / 10 =? 0)%N; [exact Hd | now apply IH].
Qed.

Lemma str_of_N_digits (n : N) :
  Forall (fun c => (48 <= c <= 57)%N) (str_of_N n).
Proof. unfold str_of_N. apply digits_fuel_digits. constructor. Qed.

Lemma str_of_Z_injective (a b : Z) : str_of_Z a = str_of_Z b -> a = b.
Proof.
  assert (Hval : forall n k, str_of_N n = str_of_N k -> n = k).
  { intros n k E. rewrite <- (str_of_N_value n), <- (str_of_N_value k).
    now rewrite E. }
  assert (Hsign : forall n t, str_of_N n <> 45%N :: t).
  { intros n t E. pose proof (str_of_N_digits n) as Hd.
    rewrite E in Hd. inversion Hd; subst. lia. }
  destruct a as [|pa|pa], b as [|pb|pb]; simpl; intros E;
    try reflexivity;
    try (apply Hval in E; congruence);
    try (exfalso; eapply Hsign; eassumption);
    try (exfalso; eapply Hsign; symmetry; eassumption).
  inversion E as [E']. apply Hval in E'. congruence.
Qed.

Lemma str_of_Z_solid (z : Z) :
  Forall (fun c => c <> space) (str_of_Z z).
Proof.
  assert (H : forall n, Forall (fun c => c <> space) (str_of_N n)).
  { intros n. eapply Forall_impl; [|apply str_of_N_digits].
    unfold space. intros c Hc. lia. }
  destruct z; simpl; try apply H.
  constructor; [discriminate | apply H].
Qed.

Lemma split_at_first (sep : N) (l1 l2 t1 t2 : str) :
  Forall (fun c => c <> sep) l1 -> Forall (fun c => c <> sep) l2 ->
  l1 ++ sep :: t1 = l2 ++ sep :: t2 -> l1 = l2.
Proof.
  intros H1. revert l2. induction H1 as [|c l1 Hc _ IH]; intros l2 H2 E.
  - destruct H2 as [|d l2 Hd _]; [reflexivity|].
    simpl in E. inversion E. congruence.
  - destruct H2 as [|d l2 Hd H2]; simpl in E.
    + inversion E. congruence.
    + inversion E; subst. f_equal. now apply IH.
Qed.

(** Every stub begins with the reference marker of its turn. *)
Lemma stub_marker (m : FocusManager) (it : MemoryItem) :
  exists tail,
    _make_stub m it
    = lit "[ref #" ++ str_of_Z (id it) ++ space :: tail.
Proof.
  unfold _make_stub, stub_prefix.
  destruct (Z.max 0 _ <=? 0)%Z.
  - unfold strip, strip_chars.
    set (mid := str_of_Z (id it) ++ [space; bullet; space] ++ role it).
    assert (E : lit "[ref #" ++ str_of_Z (id it)
                  ++ [space; bullet; space] ++ role it ++ lit "] "
                = lit "[ref #" ++ mid ++ [93%N; space]).
    { unfold mid. now rewrite <- !app_assoc. }
    rewrite E.
    change (drop_while is_space (lit "[ref #" ++ mid ++ [93%N; space]))
      with (lit "[ref #" ++ mid ++ [93%N; space]).
    rewrite !rev_app_distr.
    change (rev [93%N; space]) with [space; 93%N].
    change (drop_while is_space (([space; 93%N] ++ rev mid)
                                   ++ rev (lit "[ref #")))
      with (93%N :: rev mid ++ rev (lit "[ref #")).
    change (rev (93%N :: rev mid ++ rev (lit "[ref #")))
      with (rev (rev mid ++ rev (lit "[ref #")) ++ [93%N]).
    rewrite rev_app_distr, !rev_involutive. unfold mid.
    eexists. rewrite <- !app_assoc. simpl. reflexivity.
  - eexists. rewrite <- !app_assoc. simpl. reflexivity.
Qed.

(** X27: a stub identifies its turn: the stubs of two turns with
    different ids are different, whatever their roles, their contents
    and the configuration. *)
Theorem stub_identifies_turn (m m' : FocusManager) (a b : MemoryItem) :
  id a <> id b -> _make_stub m a <> _make_stub m' b.
Proof.
  intros Hid E. apply Hid.
  destruct (stub_marker m a) as (ta & Ha).
  destruct (stub_marker m' b) as (tb & Hb).
  rewrite Ha, Hb in E. apply app_inv_head in E.
  apply str_of_Z_injective.
  eapply split_at_first; [apply str_of_Z_solid | apply str_of_Z_solid
                          | exact E].
Qed.

(** X27, witness: turns 1 and 12 with the same role and content. *)
Lemma stub_identifies_turn_witness :
  id (mkMemoryItem 1 (lit "user") (lit "hello") 0%R 1 None FULL None 0%R)
  <> id (mkMemoryItem 12 (lit "user") (lit "hello") 0%R 1 None FULL None
           0%R)
  /\ _make_stub Fixtures.solo_manager
       (mkMemoryItem 1 (lit "user") (lit "hello") 0%R 1 None FULL None 0%R)
     <> _make_stub Fixtures.solo_manager
          (mkMemoryItem 12 (lit "user") (lit "hello") 0%R 1 None FULL None
             0%R).
Proof.
  assert (H : id (mkMemoryItem 1 (lit "user") (lit "hello") 0%R 1 None
                    FULL None 0%R)
              <> id (mkMemoryItem 12 (lit "user") (lit "hello") 0%R 1 None
                       FULL None 0%R)) by discriminate.
  split; [exact H|]. now apply stub_identifies_turn.
Defined.
